(** * Rollout viewer: loader and renderer

    A shallow embedding of [streamlit_app.py]: the JSONL loader
    [load_rollouts] and the renderer [render_rollout], together with the
    Python operations they are built from (UTF-8 decoding, [splitlines],
    [strip], subscripting, [dict.get], truthiness, [sorted]). *)

From stdpp Require Import base list strings gmap sorting.
From Stdlib Require Import ZArith Strings.Byte SpecFloat DecimalString Lia.

Local Open Scope Z_scope.
Local Set Warnings "-register-all".

(** ** Python exceptions and the error monad *)

(** [StreamlitAPIException] stands for Streamlit's own exception of a
    call it refuses, whichever of its subclasses the installed version
    raises. *)
Inductive exn :=
| UnicodeDecodeError
| JSONDecodeError
| KeyError
| IndexError
| TypeError
| AttributeError
| ValueError
| RecursionError
| StreamlitAPIException.

Global Instance exn_eq_dec : EqDecision exn.
Proof. solve_decision. Defined.

Inductive result (A : Type) :=
| Ok (a : A)
| Raise (e : exn).
Arguments Ok {A} a.
Arguments Raise {A} e.

Global Instance result_ret : MRet result := λ A, Ok.
Global Instance result_bind : MBind result := λ A B f m,
  match m with Ok a => f a | Raise e => Raise e end.
Global Instance result_fmap : FMap result := λ A B f m,
  match m with Ok a => Ok (f a) | Raise e => Raise e end.

(** ** Python strings: sequences of Unicode code points *)

Definition char := Z.
Definition str := list char.

(** An ASCII literal of the source as a [str]. *)
Definition lit (s : string) : str :=
  (λ a, Z.of_N (Ascii.N_of_ascii a)) <$> String.list_ascii_of_string s.

Fixpoint str_compare (a b : str) : comparison :=
  match a, b with
  | [], [] => Eq
  | [], _ :: _ => Lt
  | _ :: _, [] => Gt
  | x :: a', y :: b' =>
    match x ?= y with
    | Eq => str_compare a' b'
    | c => c
    end
  end.

(** [a < b] and [a <= b] on [str]. *)
Definition str_ltb (a b : str) : bool :=
  match str_compare a b with Lt => true | _ => false end.
Definition str_le (a b : str) : Prop := str_compare a b ≠ Gt.

(** ** [bytes.decode("utf-8")] *)

Definition bytes := list byte.

Global Instance byte_eq_dec : EqDecision byte := Byte.byte_eq_dec.
Global Instance byte_countable : Countable byte :=
  inj_countable Byte.to_N Byte.of_N Byte.of_to_N.

Definition between (lo hi b : Z) : bool := (lo <=? b) && (b <=? hi).
Definition low6 (b : Z) : Z := Z.land b 0x3F.

(** Strict UTF-8 over byte values: shortest form only, no surrogates,
    nothing above U+10FFFF. *)
Fixpoint decode_units (bs : list Z) : result str :=
  match bs with
  | [] => Ok []
  | b0 :: r0 =>
    if between 0x00 0x7F b0 then cons b0 <$> decode_units r0
    else if between 0xC2 0xDF b0 then
      match r0 with
      | b1 :: r1 =>
        if between 0x80 0xBF b1
        then cons (Z.lor (Z.shiftl (Z.land b0 0x1F) 6) (low6 b1)) <$> decode_units r1
        else Raise UnicodeDecodeError
      | _ => Raise UnicodeDecodeError
      end
    else if between 0xE0 0xEF b0 then
      match r0 with
      | b1 :: b2 :: r2 =>
        let lo := if b0 =? 0xE0 then 0xA0 else 0x80 in
        let hi := if b0 =? 0xED then 0x9F else 0xBF in
        if between lo hi b1 && between 0x80 0xBF b2
        then cons (Z.lor (Z.shiftl (Z.land b0 0x0F) 12)
                     (Z.lor (Z.shiftl (low6 b1) 6) (low6 b2)))
               <$> decode_units r2
        else Raise UnicodeDecodeError
      | _ => Raise UnicodeDecodeError
      end
    else if between 0xF0 0xF4 b0 then
      match r0 with
      | b1 :: b2 :: b3 :: r3 =>
        let lo := if b0 =? 0xF0 then 0x90 else 0x80 in
        let hi := if b0 =? 0xF4 then 0x8F else 0xBF in
        if between lo hi b1 && between 0x80 0xBF b2 && between 0x80 0xBF b3
        then cons (Z.lor (Z.shiftl (Z.land b0 0x07) 18)
                     (Z.lor (Z.shiftl (low6 b1) 12)
                        (Z.lor (Z.shiftl (low6 b2) 6) (low6 b3))))
               <$> decode_units r3
        else Raise UnicodeDecodeError
      | _ => Raise UnicodeDecodeError
      end
    else Raise UnicodeDecodeError
  end.

Definition decode_utf8 (raw : bytes) : result str :=
  decode_units ((λ b, Z.of_N (Byte.to_N b)) <$> raw).

(** ** [str.splitlines] and [str.strip] *)

(** Line boundaries of [str.splitlines]: LF, VT, FF, CR, FS, GS, RS, NEL,
    LINE SEPARATOR, PARAGRAPH SEPARATOR. *)
Definition is_linebreak (c : char) : bool :=
  between 0x0A 0x0D c || between 0x1C 0x1E c || (c =? 0x85)
  || (c =? 0x2028) || (c =? 0x2029).

(** [str.isspace] on one code point. *)
Definition is_space (c : char) : bool :=
  between 0x09 0x0D c || between 0x1C 0x20 c || (c =? 0x85) || (c =? 0xA0)
  || (c =? 0x1680) || between 0x2000 0x200A c || (c =? 0x2028)
  || (c =? 0x2029) || (c =? 0x202F) || (c =? 0x205F) || (c =? 0x3000).

(** [cur] holds the current line, last character first. CR LF counts as
    one boundary; a final line without terminator is kept, an empty
    remainder after the last boundary is not. *)
Fixpoint splitlines_from (cur : str) (s : str) : list str :=
  match s with
  | [] => match cur with [] => [] | _ => [reverse cur] end
  | c :: rest =>
    if c =? 0x0D then
      match rest with
      | c' :: rest' =>
        if c' =? 0x0A then reverse cur :: splitlines_from [] rest'
        else reverse cur :: splitlines_from [] rest
      | [] => reverse cur :: splitlines_from [] rest
      end
    else if is_linebreak c then reverse cur :: splitlines_from [] rest
    else splitlines_from (c :: cur) rest
  end.

Definition splitlines (s : str) : list str := splitlines_from [] s.

Fixpoint lstrip (s : str) : str :=
  match s with
  | c :: rest => if is_space c then lstrip rest else s
  | [] => []
  end.

Definition rstrip (s : str) : str := reverse (lstrip (reverse s)).
Definition strip (s : str) : str := rstrip (lstrip s).


(** ** Values produced by [json.loads] *)

(** [VDict] keeps the entries in insertion order; a dict built by the
    decoder has pairwise distinct keys. [VFloat] carries a binary64 value
    in normal form. *)
Inductive pyval :=
| VNone
| VBool (b : bool)
| VInt (n : Z)
| VFloat (f : spec_float)
| VStr (s : str)
| VList (l : list pyval)
| VDict (d : list (str * pyval)).

Global Instance pyval_inhabited : Inhabited pyval := populate VNone.

Fixpoint dict_lookup (k : str) (d : list (str * pyval)) : option pyval :=
  match d with
  | [] => None
  | (k', v) :: d' => if decide (k' = k) then Some v else dict_lookup k d'
  end.

(** [x[k]] for a string key [k]. *)
Definition getitem_str (x : pyval) (k : str) : result pyval :=
  match x with
  | VDict d =>
    match dict_lookup k d with
    | Some v => Ok v
    | None => Raise KeyError
    end
  | _ => Raise TypeError
  end.

(** [x[i]] for the integer literals [0] and [1] of the source. A dict
    decoded from JSON has string keys only, so an integer key is absent. *)
Definition getitem_int (x : pyval) (i : nat) : result pyval :=
  match x with
  | VList l =>
    match l !! i with
    | Some v => Ok v
    | None => Raise IndexError
    end
  | VStr s =>
    match s !! i with
    | Some c => Ok (VStr [c])
    | None => Raise IndexError
    end
  | VDict _ => Raise KeyError
  | _ => Raise TypeError
  end.

(** [x.get(k, default)]: only dicts have the method. *)
Definition get (x : pyval) (k : str) (dflt : pyval) : result pyval :=
  match x with
  | VDict d => Ok (default dflt (dict_lookup k d))
  | _ => Raise AttributeError
  end.

(** Truth value of [x] in an [if]. *)
Definition truthy (x : pyval) : bool :=
  match x with
  | VNone => false
  | VBool b => b
  | VInt n => negb (n =? 0)
  | VFloat (S754_zero _) => false
  | VFloat _ => true
  | VStr s => negb (bool_decide (s = []))
  | VList l => negb (bool_decide (length l = 0%nat))
  | VDict d => negb (bool_decide (length d = 0%nat))
  end.

(** [x != s] for a string literal [s]. *)
Definition ne_str (x : pyval) (s : str) : bool :=
  match x with
  | VStr s' => negb (bool_decide (s' = s))
  | _ => true
  end.

(** The items a [for] loop visits: list elements, the characters of a
    string, the keys of a dict. *)
Definition iter (x : pyval) : result (list pyval) :=
  match x with
  | VList l => Ok l
  | VStr s => Ok ((λ c, VStr [c]) <$> s)
  | VDict d => Ok ((λ kv, VStr kv.1) <$> d)
  | _ => Raise TypeError
  end.

(** ** Ordering of values, as [sorted] uses it *)

Inductive number :=
| NInt (n : Z)
| NFloat (f : spec_float).

Definition as_number (x : pyval) : option number :=
  match x with
  | VBool b => Some (NInt (if b then 1 else 0))
  | VInt n => Some (NInt n)
  | VFloat f => Some (NFloat f)
  | _ => None
  end.

(** Exact comparison of an integer with a float; [None] for NaN. *)
Definition int_float_compare (a : Z) (f : spec_float) : option comparison :=
  match f with
  | S754_nan => None
  | S754_zero _ => Some (a ?= 0)
  | S754_infinity s => Some (if s then Gt else Lt)
  | S754_finite s m e =>
    let v := if s then Z.neg m else Z.pos m in
    Some (if 0 <=? e then a ?= v * 2 ^ e else a * 2 ^ (- e) ?= v)
  end.

Definition num_compare (x y : number) : option comparison :=
  match x, y with
  | NInt a, NInt b => Some (a ?= b)
  | NFloat f, NFloat g => SFcompare f g
  | NInt a, NFloat f => int_float_compare a f
  | NFloat f, NInt a => CompOpp <$> int_float_compare a f
  end.

(** Equality of container elements ([x is y or x == y]): numbers compare
    by value across [bool], [int] and [float], the decoder's single NaN
    object is identical to itself, dicts compare regardless of order. *)
Fixpoint elem_eq (x y : pyval) {struct x} : bool :=
  match x, y with
  | VNone, VNone => true
  | VStr a, VStr b => bool_decide (a = b)
  | VList a, VList b =>
    (fix go (a b : list pyval) : bool :=
       match a, b with
       | [], [] => true
       | x' :: a', y' :: b' => elem_eq x' y' && go a' b'
       | _, _ => false
       end) a b
  | VDict a, VDict b =>
    bool_decide (length a = length b)
    && (fix go (a : list (str * pyval)) : bool :=
          match a with
          | [] => true
          | (k, v) :: a' =>
            match dict_lookup k b with
            | Some w => elem_eq v w
            | None => false
            end && go a'
          end) a
  | VFloat S754_nan, VFloat S754_nan => true
  | _, _ =>
    match as_number x, as_number y with
    | Some n, Some m =>
      match num_compare n m with Some Eq => true | _ => false end
    | _, _ => false
    end
  end.

(** [x < y]. Strings compare by code point, numbers by value, lists
    lexicographically; every other pair of types is unordered. *)
Fixpoint py_lt (x y : pyval) {struct x} : result bool :=
  match x, y with
  | VStr a, VStr b => Ok (str_ltb a b)
  | VList a, VList b =>
    (fix go (a b : list pyval) : result bool :=
       match a, b with
       | [], [] => Ok false
       | [], _ :: _ => Ok true
       | _ :: _, [] => Ok false
       | x' :: a', y' :: b' => if elem_eq x' y' then go a' b' else py_lt x' y'
       end) a b
  | _, _ =>
    match as_number x, as_number y with
    | Some n, Some m =>
      Ok (match num_compare n m with Some Lt => true | _ => false end)
    | _, _ => Raise TypeError
    end
  end.

(** ** [sorted(l, key=f)] *)

(** The key of every element is computed first, in order; the first
    failing call raises. *)
Fixpoint keyed (f : pyval → result pyval) (l : list pyval)
  : result (list (pyval * pyval)) :=
  match l with
  | [] => Ok []
  | x :: l' => k ← f x; r ← keyed f l'; Ok ((k, x) :: r)
  end.

(** Insertion of a later element [x] into the sorted prefix: in front of
    the first entry whose key is greater, so behind every equal key. Only
    [<] on keys is used. *)
Fixpoint insort (x : pyval * pyval) (l : list (pyval * pyval))
  : result (list (pyval * pyval)) :=
  match l with
  | [] => Ok [x]
  | y :: l' =>
    b ← py_lt x.1 y.1;
    if b : bool then Ok (x :: y :: l') else cons y <$> insort x l'
  end.

Fixpoint sort_into (acc l : list (pyval * pyval))
  : result (list (pyval * pyval)) :=
  match l with
  | [] => Ok acc
  | x :: l' => acc' ← insort x acc; sort_into acc' l'
  end.

(** [sorted] orders by the keys alone, through [<] only, and is stable.
    Its algorithm is modelled by a stable insertion sort. Where [<] is a
    total preorder on the keys, as on strings, order and stability fix
    the result, so the two return the same list; where [<] raises or
    leaves keys unordered (NaN), the comparisons made by CPython, and with
    them the outcome, can differ from the ones made here. *)
Definition sorted (l : list pyval) (key : pyval → result pyval)
  : result (list pyval) :=
  kl ← keyed key l;
  r ← sort_into [] kl;
  Ok (r.*2).

(** ** The loader *)

(** [lambda x: x['prompt']['messages'][1]['content']['parts'][0]] *)
Definition sort_key (x : pyval) : result pyval :=
  p ← getitem_str x (lit "prompt");
  ms ← getitem_str p (lit "messages");
  m ← getitem_int ms 1;
  c ← getitem_str m (lit "content");
  ps ← getitem_str c (lit "parts");
  getitem_int ps 0.

Section loader.
(** [json.loads] on a [str]: the decoded value, [JSONDecodeError] for a
    text that is not a JSON document, or another exception of the
    decoder (its recursion and integer-size limits). *)
Variable json_loads : str → result pyval.

(** The [for ln in lines] loop; [out] is the list built so far. *)
Fixpoint load_lines (lines : list str) (out : list pyval)
  : result (list pyval) :=
  match lines with
  | [] => Ok out
  | ln :: rest =>
    let ln := strip ln in
    if bool_decide (ln = []) then load_lines rest out
    else
      match json_loads ln with
      | Ok v => load_lines rest (out ++ [v])
      | Raise JSONDecodeError => load_lines rest out
      | Raise e => Raise e
      end
  end.

Definition load_rollouts (raw_bytes : bytes) : result (list pyval) :=
  text ← decode_utf8 raw_bytes;
  out ← load_lines (splitlines text) [];
  sorted out sort_key.

(** The function as decorated by [@st.cache_data]: results are memoised
    by the content of the argument; a call that raises stores nothing. *)
Definition load_rollouts_cached (cache : gmap bytes (list pyval))
    (raw_bytes : bytes) : gmap bytes (list pyval) * result (list pyval) :=
  match cache !! raw_bytes with
  | Some out => (cache, Ok out)
  | None =>
    match load_rollouts raw_bytes with
    | Ok out => (<[raw_bytes := out]> cache, Ok out)
    | Raise e => (cache, Raise e)
    end
  end.
End loader.

(** ** The renderer *)

(** What the Streamlit calls put on the page. A container ([with
    st.chat_message(..)], [with st.expander(..)]) holds what was written
    inside it. [st.markdown] gets a string the code has built and
    [st.write] shows a value of any type; [st.chat_message] is the one
    call that is handed a decoded value and refuses some, see
    [chat_message]. *)
Inductive element :=
| Markdown (body : str)
| Write (v : pyval) (unsafe_allow_html : bool)
| ChatMessage (name : pyval) (inside : list element)
| Expander (label : str) (expanded : bool) (inside : list element).

(** A rendering step: the elements put on the page, and the value or the
    exception it ends with. Elements written before an exception stay. *)
Definition ui (A : Type) : Type := list element * result A.

Global Instance ui_ret : MRet ui := λ A a, ([], Ok a).
Global Instance ui_bind : MBind ui := λ A B f m,
  match m.2 with
  | Ok a => (m.1 ++ (f a).1, (f a).2)
  | Raise e => (m.1, Raise e)
  end.

Definition emit (e : element) : ui unit := ([e], Ok ()).
Definition lift {A} (r : result A) : ui A := ([], r).

(** [with container: body] *)
Definition within {A} (container : list element → element) (body : ui A)
  : ui A :=
  ([container body.1], body.2).

(** [for x in l: body], where [continue] is the body returning early. *)
Fixpoint for_each (l : list pyval) (body : pyval → ui unit) : ui unit :=
  match l with
  | [] => mret ()
  | x :: l' => body x ;; for_each l' body
  end.

(** [str(n)] *)
Definition str_of_int (n : Z) : str := lit (NilZero.string_of_int (Z.to_int n)).

(** [f"---\n## Rollout {idx+1}/{total}"] *)
Definition header (idx total : Z) : str :=
  lit "---" ++ [0x0A] ++ lit "## Rollout " ++ str_of_int (idx + 1)
  ++ lit "/" ++ str_of_int total.

(** [msg["author"]["role"]] *)
Definition author_role (msg : pyval) : result pyval :=
  a ← getitem_str msg (lit "author"); getitem_str a (lit "role").

(** [st.chat_message(name)], called as the source does, without an
    avatar. Streamlit raises its own exception for the name [None];
    otherwise it picks the avatar by [name.lower()], a method that only
    a [str] has, and opens the container labelled [name]. *)
Definition chat_message (name : pyval) : result (list element → element) :=
  match name with
  | VNone => Raise StreamlitAPIException
  | VStr _ => Ok (ChatMessage name)
  | _ => Raise AttributeError
  end.

(** The analysis loop past its channel test: the chat message and the
    first of [parts[0]], [text], [result] whose field is truthy. *)
Definition show_analysis (msg : pyval) : ui unit :=
  role ← lift (author_role msg);
  message ← lift (chat_message role);
  within message
    (content ← lift (get msg (lit "content") (VDict []));
     parts ← lift (get content (lit "parts") VNone);
     if truthy parts then
       p ← lift (getitem_int parts 0); emit (Write p false)
     else
       text ← lift (get content (lit "text") VNone);
       if truthy text then emit (Write text false)
       else
         result ← lift (get content (lit "result") VNone);
         if truthy result then emit (Write result false) else mret ()).

(** Body of the loop of the analysis block. *)
Definition analysis_message (msg : pyval) : ui unit :=
  channel ← lift (getitem_str msg (lit "channel"));
  if ne_str channel (lit "analysis") then mret () else show_analysis msg.

(** The final loop past its channel test. *)
Definition show_final (msg : pyval) : ui unit :=
  part ← lift (content ← get msg (lit "content") (VDict []);
               parts ← get content (lit "parts") (VList [VStr []]);
               getitem_int parts 0);
  role ← lift (author_role msg);
  message ← lift (chat_message role);
  within message (emit (Write part true)).

(** Body of the loop of the final block. *)
Definition final_message (msg : pyval) : ui unit :=
  channel ← lift (getitem_str msg (lit "channel"));
  if ne_str channel (lit "final") then mret () else show_final msg.

(** [rollout["conversation"]["messages"]], as a loop iterates it. *)
Definition conversation_messages (rollout : pyval) : result (list pyval) :=
  c ← getitem_str rollout (lit "conversation");
  ms ← getitem_str c (lit "messages");
  iter ms.

Definition prompt_block (rollout : pyval) : ui unit :=
  prompt ← lift (p ← getitem_str rollout (lit "prompt");
                 ms ← getitem_str p (lit "messages");
                 getitem_int ms 1);
  role ← lift (author_role prompt);
  message ← lift (chat_message role);
  within message
    (text ← lift (c ← getitem_str prompt (lit "content");
                  ps ← getitem_str c (lit "parts");
                  getitem_int ps 0);
     emit (Write text false)).

Definition analysis_block (rollout : pyval) : ui unit :=
  within (Expander (lit "Analysis channel") true)
    (msgs ← lift (conversation_messages rollout);
     for_each msgs analysis_message).

Definition final_block (rollout : pyval) : ui unit :=
  msgs ← lift (conversation_messages rollout);
  for_each msgs final_message.

Definition render_rollout (rollout : pyval) (idx total : Z) : ui unit :=
  emit (Markdown (header idx total));;
  prompt_block rollout;;
  analysis_block rollout;;
  final_block rollout.

(** ** The session driver *)

(** What [main] puts into a tab: what [render_rollout] and [st.markdown]
    show, and the slider. *)
Inductive tab_item :=
| Placed (e : element)
| Slider (label : str) (min_value max_value value : Z) (key : str).

Inductive page_item :=
| PageConfig (page_title layout : str)
| Title (body : str)
| FileUploader (label type : str) (accept_multiple_files : bool)
| InfoBox (body : str)
| Tabs (tabs : list (str * list tab_item)).

(** How a run of [main] ends: it returns, an exception leaves it, or
    Streamlit refuses the slider and stops the run there. *)
Inductive ended :=
| Returned
| Failed (e : exn)
| Stopped.

(** [l[i]] for a list and an [int]: a negative index counts from the
    end. *)
Definition list_getitem (l : list pyval) (i : Z) : result pyval :=
  let n := Z.of_nat (length l) in
  let j := if i <? 0 then i + n else i in
  if (0 <=? j) && (j <? n) then
    match l !! Z.to_nat j with
    | Some v => Ok v
    | None => Raise IndexError
    end
  else Raise IndexError.

Section driver.
Variable json_loads : str → result pyval.

(** [st.slider(label, min_value=.., max_value=.., value=.., key=..)] in
    the tab of the given position: the number the user has chosen, or
    [None] when Streamlit refuses the widget. *)
Variable slider : nat → str → Z → Z → Z → str → option Z.

(** The body of [with tab:] for the file at position [i]. *)
Definition tab_body (i : nat) (cache : gmap bytes (list pyval))
    (uploaded : str * bytes)
  : gmap bytes (list pyval) * (list tab_item * ended) :=
  let model_name := uploaded.1 in
  let raw := uploaded.2 in
  let '(cache, r) := load_rollouts_cached json_loads cache raw in
  (cache,
   match r with
   | Raise e => ([], Failed e)
   | Ok rollouts =>
     let total := Z.of_nat (length rollouts) in
     let loaded :=
       Placed (Markdown (lit "**" ++ model_name ++ lit ": Loaded "
                        ++ str_of_int total ++ lit " rollouts**")) in
     let key := lit "slider_" ++ model_name in
     match slider i (lit "Choose rollout") 1 total 1 key with
     | None => ([loaded], Stopped)
     | Some v =>
       let idx := v - 1 in
       let chosen := Slider (lit "Choose rollout") 1 total 1 key in
       match list_getitem rollouts idx with
       | Raise e => ([loaded; chosen], Failed e)
       | Ok rollout =>
         let shown := render_rollout rollout idx total in
         (loaded :: chosen :: (Placed <$> shown.1),
          match shown.2 with Ok _ => Returned | Raise e => Failed e end)
       end
     end
   end).

(** [for tab, uploaded in zip(tabs, uploaded_files)], from position [i]
    on: the content of each tab. The tabs exist before the loop starts,
    so the tabs behind a failure stay empty. *)
Fixpoint tabs_loop (i : nat) (cache : gmap bytes (list pyval))
    (files : list (str * bytes))
  : gmap bytes (list pyval) * (list (list tab_item) * ended) :=
  match files with
  | [] => (cache, ([], Returned))
  | uploaded :: rest =>
    let '(cache, (items, r)) := tab_body i cache uploaded in
    match r with
    | Returned =>
      let '(cache, (more, r)) := tabs_loop (S i) cache rest in
      (cache, (items :: more, r))
    | _ => (cache, (items :: ((λ _, []) <$> rest), r))
    end
  end.

(** [uploaded_files] is what [st.file_uploader] returns: the name and
    the content of each uploaded file. *)
Definition main (cache : gmap bytes (list pyval))
    (uploaded_files : list (str * bytes))
  : gmap bytes (list pyval) * (list page_item * ended) :=
  let top :=
    [PageConfig (lit "Rollouts") (lit "wide");
     Title (lit "Rollouts");
     FileUploader (lit "Upload one JSONL file per model") (lit "jsonl") true] in
  match uploaded_files with
  | [] =>
    (cache,
     (top ++ [InfoBox (lit "Please upload at least one JSONL file to begin.")],
      Returned))
  | _ =>
    let '(cache, (contents, r)) := tabs_loop 0 cache uploaded_files in
    (cache, (top ++ [Tabs (zip (uploaded_files.*1) contents)], r))
  end.
End driver.

(** ** A JSON decoder to run the loader on concrete files

    The loader is stated for any [json_loads]. [Decoder.loads] is a
    decoder for the JSON grammar that [json.loads] accepts by default
    (RFC 8259 plus [NaN], [Infinity] and [-Infinity]); it has no limit
    on nesting depth or on the number of digits of an integer. *)
Module Decoder.

Definition is_ws (c : char) : bool :=
  (c =? 0x20) || (c =? 0x09) || (c =? 0x0A) || (c =? 0x0D).

Fixpoint skip_ws (s : str) : str :=
  match s with
  | c :: r => if is_ws c then skip_ws r else s
  | [] => []
  end.

Fixpoint strip_prefix (p s : str) : option str :=
  match p, s with
  | [], _ => Some s
  | x :: p', y :: s' => if x =? y then strip_prefix p' s' else None
  | _ :: _, [] => None
  end.

Definition hex_digit (c : char) : option Z :=
  if between 0x30 0x39 c then Some (c - 0x30)
  else if between 0x41 0x46 c then Some (c - 0x41 + 10)
  else if between 0x61 0x66 c then Some (c - 0x61 + 10)
  else None.

(** The four hexadecimal digits of a [\uXXXX] escape. *)
Definition hex4 (s : str) : option (Z * str) :=
  match s with
  | a :: b :: c :: d :: r =>
    x ← hex_digit a; y ← hex_digit b; z ← hex_digit c; w ← hex_digit d;
    Some (((x * 16 + y) * 16 + z) * 16 + w, r)
  | _ => None
  end.

Definition simple_escape (c : char) : option char :=
  if c =? 0x22 then Some 0x22        (* quote *)
  else if c =? 0x5C then Some 0x5C   (* backslash *)
  else if c =? 0x2F then Some 0x2F   (* slash *)
  else if c =? 0x62 then Some 0x08   (* b *)
  else if c =? 0x66 then Some 0x0C   (* f *)
  else if c =? 0x6E then Some 0x0A   (* n *)
  else if c =? 0x72 then Some 0x0D   (* r *)
  else if c =? 0x74 then Some 0x09   (* t *)
  else None.

(** The rest of a string literal after its opening quote; [acc] is the
    content so far, last character first. *)
Fixpoint scan_string (fuel : nat) (s acc : str) : option (str * str) :=
  match fuel, s with
  | S fuel, c :: r =>
    if c =? 0x22 then Some (reverse acc, r)
    else if c =? 0x5C then
      match r with
      | e :: r' =>
        if e =? 0x75 then
          '(u, r1) ← hex4 r';
          match (if between 0xD800 0xDBFF u
                 then r2 ← strip_prefix [0x5C; 0x75] r1; Some r2
                 else None) with
          | Some r2 =>
            '(u2, r3) ← hex4 r2;
            if between 0xDC00 0xDFFF u2
            then scan_string fuel r3
                   (0x10000 + Z.lor (Z.shiftl (u - 0xD800) 10) (u2 - 0xDC00)
                    :: acc)
            else scan_string fuel r1 (u :: acc)
          | None => scan_string fuel r1 (u :: acc)
          end
        else x ← simple_escape e; scan_string fuel r' (x :: acc)
      | [] => None
      end
    else if c <? 0x20 then None
    else scan_string fuel r (c :: acc)
  | _, _ => None
  end.

Definition is_digit (c : char) : bool := between 0x30 0x39 c.

(** A run of decimal digits: its value, its length, the rest. *)
Fixpoint digits (s : str) (acc : Z) (count : Z) : Z * Z * str :=
  match s with
  | c :: r =>
    if is_digit c then digits r (acc * 10 + (c - 0x30)) (count + 1)
    else (acc, count, s)
  | [] => (acc, count, [])
  end.

(** The binary64 value nearest to [m * 10 ^ k] (ties to even), with
    the sign [neg]. *)
Definition float_of_decimal (neg : bool) (m k : Z) : spec_float :=
  let num := m * 10 ^ Z.max k 0 * 2 ^ 1100 in
  let den := 10 ^ Z.max (- k) 0 in
  let r := num mod den in
  let loc := if r =? 0 then loc_Exact else loc_Inexact (2 * r ?= den) in
  binary_round_aux 53 1024 neg (num / den) (-1100) loc.

(** An optional minus sign, an integer part without leading zero, an
    optional fraction, an optional exponent: an [int] without fraction
    and exponent, a [float] otherwise. *)
Definition scan_number (s : str) : option (pyval * str) :=
  let '(neg, s) :=
    match s with
    | c :: r => if c =? 0x2D then (true, r) else (false, s)
    | [] => (false, s)
    end in
  '(ip, s) ←
    match s with
    | c :: r =>
      if c =? 0x30 then Some (0, r)
      else if is_digit c then let '(v, _, r') := digits s 0 0 in Some (v, r')
      else None
    | [] => None
    end;
  '(frac, flen, has_frac, s) ←
    match s with
    | c :: r =>
      if c =? 0x2E then
        let '(v, n, r') := digits r 0 0 in
        if 0 <? n then Some (v, n, true, r') else None
      else Some (0, 0, false, s)
    | [] => Some (0, 0, false, s)
    end;
  '(ex, has_exp, s) ←
    match s with
    | c :: r =>
      if (c =? 0x65) || (c =? 0x45) then
        let '(eneg, r) :=
          match r with
          | d :: r' =>
            if d =? 0x2D then (true, r')
            else if d =? 0x2B then (false, r') else (false, r)
          | [] => (false, r)
          end in
        let '(v, n, r') := digits r 0 0 in
        if 0 <? n then Some (if eneg then - v else v, true, r') else None
      else Some (0, false, s)
    | [] => Some (0, false, s)
    end;
  if has_frac || has_exp
  then Some (VFloat (float_of_decimal neg (ip * 10 ^ flen + frac) (ex - flen)), s)
  else Some (VInt (if neg then - ip else ip), s).

(** [d[k] = v]: a repeated key keeps its place and takes the new value. *)
Fixpoint dict_set (k : str) (v : pyval) (d : list (str * pyval))
  : list (str * pyval) :=
  match d with
  | [] => [(k, v)]
  | (k', v') :: d' =>
    if decide (k' = k) then (k, v) :: d' else (k', v') :: dict_set k v d'
  end.

Definition scan_literal (s : str) : option (pyval * str) :=
  match strip_prefix (lit "null") s with Some r => Some (VNone, r) | None =>
  match strip_prefix (lit "true") s with Some r => Some (VBool true, r) | None =>
  match strip_prefix (lit "false") s with Some r => Some (VBool false, r) | None =>
  match strip_prefix (lit "NaN") s with Some r => Some (VFloat S754_nan, r) | None =>
  match strip_prefix (lit "Infinity") s with
  | Some r => Some (VFloat (S754_infinity false), r) | None =>
  match strip_prefix (lit "-Infinity") s with
  | Some r => Some (VFloat (S754_infinity true), r) | None =>
  scan_number s
  end end end end end end.

Fixpoint value (fuel : nat) (s : str) : option (pyval * str) :=
  match fuel, s with
  | S fuel, c :: r =>
    if c =? 0x22 then
      '(k, r') ← scan_string (length r) r []; Some (VStr k, r')
    else if c =? 0x5B then
      match skip_ws r with
      | c' :: r' =>
        if c' =? 0x5D then Some (VList [], r') else elements fuel (c' :: r') []
      | [] => None
      end
    else if c =? 0x7B then
      match skip_ws r with
      | c' :: r' =>
        if c' =? 0x7D then Some (VDict [], r') else members fuel (c' :: r') []
      | [] => None
      end
    else scan_literal s
  | _, _ => None
  end
with elements (fuel : nat) (s : str) (acc : list pyval)
  : option (pyval * str) :=
  match fuel with
  | S fuel =>
    '(v, r) ← value fuel s;
    match skip_ws r with
    | c :: r' =>
      if c =? 0x2C then elements fuel (skip_ws r') (acc ++ [v])
      else if c =? 0x5D then Some (VList (acc ++ [v]), r')
      else None
    | [] => None
    end
  | O => None
  end
with members (fuel : nat) (s : str) (acc : list (str * pyval))
  : option (pyval * str) :=
  match fuel, s with
  | S fuel, q :: r0 =>
    if q =? 0x22 then
      '(k, r1) ← scan_string (length r0) r0 [];
      match skip_ws r1 with
      | colon :: r2 =>
        if colon =? 0x3A then
          '(v, r3) ← value fuel (skip_ws r2);
          match skip_ws r3 with
          | c :: r4 =>
            if c =? 0x2C then members fuel (skip_ws r4) (dict_set k v acc)
            else if c =? 0x7D then Some (VDict (dict_set k v acc), r4)
            else None
          | [] => None
          end
        else None
      | [] => None
      end
    else None
  | _, _ => None
  end.

(** [json.loads(s)] *)
Definition loads (s : str) : result pyval :=
  let s := skip_ws s in
  match value (2 * length s + 2) s with
  | Some (v, r) =>
    match skip_ws r with
    | [] => Ok v
    | _ => Raise JSONDecodeError
    end
  | None => Raise JSONDecodeError
  end.

End Decoder.

(** ** Example inputs *)

(** JSON text, written with an apostrophe for every double quote. *)
Definition json_text (s : string) : str :=
  (λ c, if c =? 0x27 then 0x22 else c) <$> lit s.

Definition json_file (s : string) : bytes :=
  (λ b, if Byte.eqb b x27 then x22 else b) <$> String.list_byte_of_string s.

Definition text_of (raw : bytes) : str :=
  match decode_utf8 raw with Ok text => text | Raise _ => [] end.

Definition parse (s : string) : pyval :=
  match Decoder.loads (json_text s) with Ok v => v | Raise _ => VNone end.

Definition entries (v : pyval) : list (str * pyval) :=
  match v with VDict d => d | _ => [] end.

(** Three rollouts with prompts B, A, A, between them an empty line, a
    line that is not JSON and a line of spaces. *)
Definition rollouts_file : bytes := json_file
"{'prompt':{'messages':['sys',{'author':{'role':'user'},'content':{'parts':['B']}}]},'conversation':{'messages':[{'channel':'analysis','author':{'role':'assistant'},'content':{'text':'thinking'}},{'channel':'final','author':{'role':'assistant'},'content':{'parts':['Answer B']}}]}}

not json
   
{'prompt':{'messages':['sys',{'author':{'role':'user'},'content':{'parts':['A']}}]},'conversation':{'messages':[{'channel':'analysis','author':{'role':'assistant'},'content':{'text':'thinking'}},{'channel':'final','author':{'role':'assistant'},'content':{'parts':['Answer A']}}]}}
{'prompt':{'messages':['sys',{'author':{'role':'user'},'content':{'parts':['A']}}]},'conversation':{'messages':[{'channel':'final','author':{'role':'assistant'},'content':{'parts':['Answer A again']}}]}}
".

(** A file whose second line is valid JSON with a one-element
    [prompt.messages]. *)
Definition short_file : bytes := json_file
"{'prompt':{'messages':['sys',{'content':{'parts':['A']}}]}}
{'prompt':{'messages':['sys']}}
".

(** A rollout with an analysis, a commentary and a final message. *)
Definition three_channels : pyval := parse
"{'prompt':{'messages':['sys',{'author':{'role':'user'},'content':{'parts':['Q']}}]},'conversation':{'messages':[{'channel':'analysis','author':{'role':'assistant'},'content':{'text':'thinking'}},{'channel':'commentary','author':{'role':'assistant'},'content':{'text':'aside'}},{'channel':'final','author':{'role':'assistant'},'content':{'parts':['Answer']}}]}}".

(** An analysis message with an empty [text] and a [result]. *)
Definition empty_text_message : pyval := parse
"{'channel':'analysis','author':{'role':'assistant'},'content':{'text':'','result':'R'}}".

Definition text_message : pyval := parse
"{'channel':'analysis','author':{'role':'assistant'},'content':{'text':'T','result':'R'}}".

Definition final_answer_message : pyval := parse
"{'channel':'final','author':{'role':'assistant'},'content':{'parts':['Answer']}}".

Definition final_empty_message : pyval := parse
"{'channel':'final','author':{'role':'assistant'},'content':{'parts':[]}}".

(** A rollout whose second conversation message has no [channel]. *)
Definition channelless : pyval := parse
"{'prompt':{'messages':['sys',{'author':{'role':'user'},'content':{'parts':['Q']}}]},'conversation':{'messages':[{'channel':'analysis','author':{'role':'assistant'},'content':{'text':'thinking'}},{'author':{'role':'assistant'},'content':{'parts':['Answer']}}]}}".

Definition three_messages : list pyval :=
  match conversation_messages three_channels with Ok l => l | Raise _ => [] end.

Definition channelless_messages : list pyval :=
  match conversation_messages channelless with Ok l => l | Raise _ => [] end.

Definition assistant : pyval := VStr (lit "assistant").

(** ** Vocabulary of the specification *)

(** The sort key of a record when it is a string. *)
Definition str_key (v : pyval) : option str :=
  match sort_key v with
  | Ok (VStr s) => Some s
  | _ => None
  end.

(** A blank line: empty, or whitespace only. *)
Definition blank (ln : str) : Prop := Forall (λ c, is_space c = true) ln.

Global Instance blank_dec ln : Decision (blank ln).
Proof. unfold blank. apply _. Defined.

(** The lines handed to [json.loads]: the lines that are not blank,
    stripped. *)
Definition stripped_lines (text : str) : list str :=
  strip <$> filter (λ ln, ¬ blank ln) (splitlines text).

(** The exceptions of a failed lookup. *)
Definition lookup_error (e : exn) : Prop :=
  e = KeyError ∨ e = IndexError ∨ e = TypeError.

(** [msg["channel"] == s] *)
Definition channel_is (s : str) (msg : pyval) : Prop :=
  getitem_str msg (lit "channel") = Ok (VStr s).

Global Instance channel_is_dec s msg : Decision (channel_is s msg).
Proof.
  unfold channel_is.
  destruct (getitem_str msg (lit "channel")) as [[| | | |s'| |]|e];
    try (right; congruence).
  destruct (decide (s' = s)) as [->|Hne]; [left; reflexivity|right; congruence].
Defined.

Section session.
Variable json_loads : str → result pyval.

(** The values of the lines that decode, in line order. *)
Definition decoded (lines : list str) : list pyval :=
  omap (λ ln, match json_loads ln with Ok v => Some v | Raise _ => None end)
       lines.

Definition accepted (ln : str) : Prop := ∃ v, json_loads ln = Ok v.
Definition rejected (ln : str) : Prop := json_loads ln = Raise JSONDecodeError.

Global Instance accepted_dec ln : Decision (accepted ln).
Proof.
  unfold accepted. destruct (json_loads ln) as [v|e];
    [left; eauto|right; intros [v Hv]; discriminate].
Defined.

Global Instance rejected_dec ln : Decision (rejected ln).
Proof.
  unfold rejected. destruct (json_loads ln) as [v|e];
    [right; discriminate|].
  destruct (decide (e = JSONDecodeError)) as [->|Hne];
    [left; reflexivity|right; congruence].
Defined.

End session.

(** A string-keyed entry as [sorted] holds it, and the order of entries
    by key. *)
Definition tag (p : str * pyval) : pyval * pyval := (VStr p.1, p.2).
Definition key_le (p q : str * pyval) : Prop := str_le p.1 q.1.

(** ** Example inputs for the further properties *)

(** The rollouts file with a byte FF at its end. *)
Definition invalid_file : bytes := rollouts_file ++ [xff].

(** A file of an empty line, a line that is not JSON and a line of
    spaces. *)
Definition junk_file : bytes := json_file
"
not json
   
".

(** A decoder with a recursion limit: a text that opens four arrays at
    once is too deep for it. *)
Definition limited_loads (s : str) : result pyval :=
  match Decoder.strip_prefix (lit "[[[[") s with
  | Some _ => Raise RecursionError
  | None => Decoder.loads s
  end.

Definition deep_file : bytes := json_file
"{'prompt':{'messages':['sys',{'content':{'parts':['A']}}]}}
not json
[[[[1]]]]
{'prompt':{'messages':['sys',{'content':{'parts':['B']}}]}}
".

Definition sorted_rollouts : list pyval :=
  match load_rollouts Decoder.loads rollouts_file with
  | Ok l => l
  | Raise _ => []
  end.

(** An analysis message whose content is [null]. *)
Definition null_content_message : pyval := parse
"{'channel':'analysis','author':{'role':'assistant'},'content':null}".

(** A final message whose role is [null]. *)
Definition null_role_message : pyval := parse
"{'channel':'final','author':{'role':null},'content':{'parts':['Answer']}}".

(** A slider left at its initial value, and one moved to position [n]:
    Streamlit refuses a value outside the range. *)
Definition slider_at (n : Z) : nat → str → Z → Z → Z → str → option Z :=
  λ _ _ min_value max_value _ _,
    if (min_value <=? n) && (n <=? max_value) then Some n else None.

Definition untouched_slider : nat → str → Z → Z → Z → str → option Z :=
  λ i label min_value max_value value key,
    slider_at value i label min_value max_value value key.

Definition three_files : list (str * bytes) :=
  [(lit "a.jsonl", rollouts_file);
   (lit "b.jsonl", short_file);
   (lit "c.jsonl", rollouts_file)].

(** ** Vocabulary for the further properties *)

(** A byte that occurs in no UTF-8 text: C0, C1, or F5 and above. *)
Definition never_utf8 (b : byte) : Prop :=
  let n := Z.of_N (Byte.to_N b) in n = 0xC0 ∨ n = 0xC1 ∨ 0xF5 ≤ n.

(** The values a byte takes in UTF-8 text. *)
Definition utf8_unit (b : Z) : Prop := 0 ≤ b ≤ 0xBF ∨ 0xC2 ≤ b ≤ 0xF4.

(** Some [st.write] inside the element has, or has not,
    [unsafe_allow_html=True]. *)
Fixpoint writes_html (e : element) : bool :=
  match e with
  | Markdown _ => false
  | Write _ html => html
  | ChatMessage _ inside => existsb writes_html inside
  | Expander _ _ inside => existsb writes_html inside
  end.

Fixpoint writes_escaped (e : element) : bool :=
  match e with
  | Markdown _ => false
  | Write _ html => negb html
  | ChatMessage _ inside => existsb writes_escaped inside
  | Expander _ _ inside => existsb writes_escaped inside
  end.

(** The element is the chat message of [msg]: labelled with its
    [author.role]. *)
Definition chat_of (msg : pyval) (e : element) : Prop :=
  ∃ role inside, author_role msg = Ok role ∧ e = ChatMessage role inside.

(** The exceptions [render_rollout] can end with. *)
Definition render_error (e : exn) : Prop :=
  lookup_error e ∨ e = AttributeError ∨ e = StreamlitAPIException.

(** The value is a [str]. *)
Definition is_str (v : pyval) : Prop := ∃ s, v = VStr s.

(** A line as [json.loads] gets it: not empty, without surrounding
    whitespace, without a line boundary inside. *)
Definition clean (ln : str) : Prop :=
  ln ≠ [] ∧ strip ln = ln ∧ Forall (λ c, is_linebreak c = false) ln.

Section more_session.
Variable json_loads : str → result pyval.

(** Every entry of the cache is what the loader returns on its key. *)
Definition cache_sound (cache : gmap bytes (list pyval)) : Prop :=
  ∀ b out, cache !! b = Some out → load_rollouts json_loads b = Ok out.

(** The cache after a run of calls of the memoised loader. *)
Fixpoint cache_after (cache : gmap bytes (list pyval)) (inputs : list bytes)
  : gmap bytes (list pyval) :=
  match inputs with
  | [] => cache
  | raw :: rest =>
    cache_after (load_rollouts_cached json_loads cache raw).1 rest
  end.
End more_session.

(** * Properties *)

(** ** The order on strings *)

Lemma str_compare_refl a : str_compare a a = Eq.
Proof. induction a as [|x a IH]; simpl; [done|]. by rewrite Z.compare_refl. Qed.

Lemma str_compare_eq a b : str_compare a b = Eq → a = b.
Proof.
  revert b. induction a as [|x a IH]; intros [|y b]; simpl; try done.
  destruct (Z.compare_spec x y) as [->| |]; try done.
  intros Hab. f_equal. by apply IH.
Qed.

Lemma str_compare_antisym a b : str_compare b a = CompOpp (str_compare a b).
Proof.
  revert b. induction a as [|x a IH]; intros [|y b]; simpl; try done.
  rewrite (Z.compare_antisym x y).
  destruct (x ?= y); simpl; auto.
Qed.

Lemma str_compare_lt_le a b c :
  str_compare a b = Lt → str_compare b c ≠ Gt → str_compare a c = Lt.
Proof.
  revert b c. induction a as [|x a IH]; intros [|y b] [|z c]; simpl; try done.
  destruct (Z.compare_spec x y) as [->|Hxy|Hxy]; try done.
  - destruct (Z.compare_spec y z); try done. apply IH.
  - intros _. destruct (Z.compare_spec y z) as [->|Hyz|Hyz]; try done.
    + intros _. by apply Z.compare_lt_iff in Hxy as ->.
    + intros _. assert (x < z) as ->%Z.compare_lt_iff by lia. done.
Qed.

Lemma str_compare_le_le a b c :
  str_compare a b ≠ Gt → str_compare b c ≠ Gt → str_compare a c ≠ Gt.
Proof.
  intros Hab Hbc. destruct (str_compare a b) eqn:E; try done.
  - apply str_compare_eq in E as ->. done.
  - by rewrite (str_compare_lt_le a b c).
Qed.

Global Instance str_le_trans : Transitive str_le.
Proof. intros a b c. apply str_compare_le_le. Qed.

Lemma str_ltb_le a b : str_ltb a b = true → str_le a b.
Proof. unfold str_ltb, str_le. destruct (str_compare a b); done. Qed.

Lemma str_ltb_ge a b : str_ltb a b = false → str_le b a.
Proof.
  unfold str_ltb, str_le. rewrite (str_compare_antisym a b).
  destruct (str_compare a b); done.
Qed.

Lemma str_ltb_le_ne a b c : str_ltb a b = true → str_le b c → a ≠ c.
Proof.
  unfold str_ltb, str_le. intros Hab Hbc ->.
  destruct (str_compare c b) eqn:E; try done.
  pose proof (str_compare_lt_le _ _ _ E Hbc) as H.
  by rewrite str_compare_refl in H.
Qed.

(** ** [sorted] on string keys *)

Lemma result_bind_ok {A B} (a : A) (f : A → result B) : Ok a ≫= f = f a.
Proof. reflexivity. Qed.

Lemma sort_into_cons acc x l :
  sort_into acc (x :: l) = insort x acc ≫= λ acc', sort_into acc' l.
Proof. reflexivity. Qed.

Lemma filter_key_none (s : str) (l : list (str * pyval)) :
  Forall (λ p, p.1 ≠ s) l → filter (λ p, p.1 = s) l = [].
Proof.
  induction 1 as [|p l Hp _ IH]; [done|]. by rewrite filter_cons_False.
Qed.

Lemma insort_tag_cons x y l :
  insort (tag x) (tag y :: l)
  = if str_ltb x.1 y.1 then Ok (tag x :: tag y :: l)
    else cons (tag y) <$> insort (tag x) l.
Proof. reflexivity. Qed.

Lemma insort_str x l :
  StronglySorted key_le l →
  ∃ l', insort (tag x) (tag <$> l) = Ok (tag <$> l')
        ∧ StronglySorted key_le l'
        ∧ l' ≡ₚ l ++ [x]
        ∧ ∀ s, filter (λ p, p.1 = s) l' = filter (λ p, p.1 = s) (l ++ [x]).
Proof.
  induction 1 as [|y l Hl IH Hy].
  { exists [x]. repeat split; repeat constructor. }
  rewrite fmap_cons, insort_tag_cons.
  destruct (str_ltb x.1 y.1) eqn:E.
  - assert (Forall (key_le y) (y :: l)) as Hyl.
    { constructor; [|done]. unfold key_le, str_le. by rewrite str_compare_refl. }
    exists (x :: y :: l). split_and!; [done| | |].
    + constructor; [by constructor|].
      eapply Forall_impl; [exact Hyl|]. intros z Hz.
      unfold key_le in *. etrans; [by apply str_ltb_le|done].
    + by rewrite (Permutation_cons_append (y :: l)).
    + intros s. change (y :: l ++ [x]) with ((y :: l) ++ [x]).
      rewrite filter_app, (filter_cons _ x), (filter_singleton _ x []).
      case_decide as Hs; [|by rewrite app_nil_r].
      rewrite filter_key_none; [done|].
      eapply Forall_impl; [exact Hyl|]. intros z Hz Hzs.
      apply (str_ltb_le_ne _ _ z.1 E Hz). congruence.
  - destruct IH as (l' & -> & Hs & Hp & Hf).
    exists (y :: l'). split_and!; [reflexivity| | |].
    + constructor; [done|]. rewrite Hp. apply Forall_app. split; [done|].
      repeat constructor. by apply str_ltb_ge.
    + by rewrite Hp.
    + intros s. change ((y :: l) ++ [x]) with (y :: (l ++ [x])).
      rewrite !filter_cons, Hf. by case_decide.
Qed.

Lemma sort_into_str acc l :
  StronglySorted key_le acc →
  ∃ r, sort_into (tag <$> acc) (tag <$> l) = Ok (tag <$> r)
       ∧ StronglySorted key_le r
       ∧ r ≡ₚ acc ++ l
       ∧ ∀ s, filter (λ p, p.1 = s) r = filter (λ p, p.1 = s) (acc ++ l).
Proof.
  revert acc. induction l as [|x l IH]; intros acc Hacc.
  { exists acc. rewrite app_nil_r. done. }
  destruct (insort_str x acc Hacc) as (acc' & Hins & Hs & Hp & Hf).
  destruct (IH acc' Hs) as (r & Hr & Hrs & Hrp & Hrf).
  rewrite fmap_cons, sort_into_cons, Hins, result_bind_ok, Hr.
  exists r. split_and!; [done|done| |].
  - by rewrite Hrp, Hp, <-(assoc_L (++)).
  - intros s. rewrite Hrf, !filter_app, Hf, filter_app, <-(assoc_L (++)).
    by rewrite <-(filter_app _ [x] l).
Qed.

Lemma keyed_str out ks :
  Forall2 (λ v k, sort_key v = Ok (VStr k)) out ks →
  keyed sort_key out = Ok (tag <$> zip ks out).
Proof.
  induction 1 as [|v k out ks Hk _ IH]; simpl; [done|].
  by rewrite Hk, IH.
Qed.

(** The keys of [out], when all of them are strings. *)
Lemma str_keys_exist out :
  Forall (λ v, is_Some (str_key v)) out →
  ∃ ks, Forall2 (λ v k, sort_key v = Ok (VStr k)) out ks.
Proof.
  induction 1 as [|v out [k Hk] _ [ks IH]]; [by exists []|].
  exists (k :: ks). constructor; [|done].
  unfold str_key in Hk. by destruct (sort_key v) as [[]|]; simplify_eq.
Qed.

Lemma str_key_zip out ks :
  Forall2 (λ v k, sort_key v = Ok (VStr k)) out ks →
  Forall (λ p, str_key p.2 = Some p.1) (zip ks out).
Proof.
  induction 1 as [|v k out ks Hk _ IH]; simpl; constructor; [|done].
  unfold str_key. simpl. by rewrite Hk.
Qed.

Lemma filter_key_snd (s : str) (l : list (str * pyval)) :
  Forall (λ p, str_key p.2 = Some p.1) l →
  (filter (λ p, p.1 = s) l).*2 = filter (λ v, str_key v = Some s) (l.*2).
Proof.
  induction 1 as [|p l Hp _ IH]; [done|].
  rewrite fmap_cons, !filter_cons.
  repeat case_decide; rewrite ?fmap_cons, ?IH; try done; congruence.
Qed.

(** [sorted] with string keys: it returns, in non-decreasing key order, a
    rearrangement of its input that keeps records of equal key in input
    order. *)
Lemma sorted_str out :
  Forall (λ v, is_Some (str_key v)) out →
  ∃ r, sorted out sort_key = Ok (r.*2)
       ∧ Forall (λ p, str_key p.2 = Some p.1) r
       ∧ StronglySorted key_le r
       ∧ r.*2 ≡ₚ out
       ∧ ∀ s, filter (λ v, str_key v = Some s) (r.*2)
              = filter (λ v, str_key v = Some s) out.
Proof.
  intros [ks Hks]%str_keys_exist.
  destruct (sort_into_str [] (zip ks out)) as (r & Hr & Hs & Hp & Hf);
    [constructor|].
  pose proof (str_key_zip _ _ Hks) as Hz.
  assert ((zip ks out).*2 = out) as Hsnd.
  { apply snd_zip. apply Forall2_length in Hks. lia. }
  change ([] ++ zip ks out) with (zip ks out) in Hp, Hf.
  exists r. unfold sorted.
  rewrite (keyed_str _ _ Hks), result_bind_ok.
  change (tag <$> []) with (@nil (pyval * pyval)) in Hr.
  rewrite Hr, result_bind_ok.
  assert ((tag <$> r).*2 = r.*2) as -> by (by rewrite <-list_fmap_compose).
  split_and!; [done| | done | |].
  - by rewrite Hp.
  - by rewrite Hp, Hsnd.
  - intros s. rewrite <-(filter_key_snd s r) by (by rewrite Hp).
    rewrite Hf, filter_key_snd by done. by rewrite Hsnd.
Qed.

Lemma str_le_antisym a b : str_le a b → str_le b a → a = b.
Proof.
  unfold str_le. rewrite (str_compare_antisym a b). intros Hab Hba.
  apply str_compare_eq. by destruct (str_compare a b).
Qed.

(** Sortedness and stability determine the result: two arrangements in
    key order that list the entries of every key in the same order are
    equal. Any stable sort returns what [sorted] above returns. *)
Lemma stable_sorted_unique (r1 r2 : list (str * pyval)) :
  StronglySorted key_le r1 →
  StronglySorted key_le r2 →
  (∀ s, filter (λ p, p.1 = s) r1 = filter (λ p, p.1 = s) r2) →
  r1 = r2.
Proof.
  intros H1. revert r2.
  induction H1 as [|x r1 Hs1 IH Hx]; intros [|y r2] H2 Hf; [done| | |].
  - specialize (Hf y.1). by rewrite filter_cons_True in Hf.
  - specialize (Hf x.1). by rewrite filter_cons_True in Hf.
  - apply StronglySorted_cons in H2 as [Hy H2].
    assert (y ∈ x :: r1) as Hyx.
    { eapply (proj1 (list_elem_of_filter (λ p, p.1 = y.1) _ _)).
      rewrite Hf, filter_cons_True by done. left. }
    assert (x ∈ y :: r2) as Hxy.
    { eapply (proj1 (list_elem_of_filter (λ p, p.1 = x.1) _ _)).
      rewrite <-Hf, filter_cons_True by done. left. }
    assert (x.1 = y.1) as Hk.
    { rewrite Forall_forall in Hx, Hy. apply str_le_antisym.
      - apply elem_of_cons in Hyx as [->|Hyx]; [|by apply Hx].
        unfold str_le. by rewrite str_compare_refl.
      - apply elem_of_cons in Hxy as [->|Hxy]; [|by apply Hy].
        unfold str_le. by rewrite str_compare_refl. }
    assert (x = y) as ->.
    { specialize (Hf x.1). rewrite !filter_cons_True in Hf by done.
      by injection Hf. }
    f_equal. apply IH; [done|]. intros s. specialize (Hf s).
    rewrite !filter_cons in Hf. case_decide; [by injection Hf|done].
Qed.

(** ** Lines and blank lines *)

Lemma lstrip_nil s : lstrip s = [] ↔ blank s.
Proof.
  unfold blank. induction s as [|c s IH]; simpl; [by split; [constructor|]|].
  destruct (is_space c) eqn:E.
  - rewrite IH. split; [by constructor|by inversion 1].
  - split; [done|]. inversion 1; congruence.
Qed.

Lemma lstrip_blank s : blank (lstrip s) → blank s.
Proof.
  unfold blank. induction s as [|c s IH]; simpl; [done|].
  destruct (is_space c) eqn:E; [|done]. by constructor; [|apply IH].
Qed.

Lemma strip_nil s : strip s = [] ↔ blank s.
Proof.
  unfold strip, rstrip. split.
  - intros H. apply lstrip_blank.
    apply (f_equal reverse) in H. rewrite reverse_involutive in H.
    change (reverse []) with (@nil char) in H.
    apply lstrip_nil in H. unfold blank in *.
    by rewrite Forall_reverse in H.
  - intros H%lstrip_nil. by rewrite H.
Qed.

(** ** Lookups along a path *)

Lemma getitem_str_error v k e : getitem_str v k = Raise e → lookup_error e.
Proof.
  unfold lookup_error. destruct v as [| | | | | |d]; simpl; try naive_solver.
  destruct (dict_lookup k d); naive_solver.
Qed.

Lemma getitem_int_error v i e : getitem_int v i = Raise e → lookup_error e.
Proof.
  unfold lookup_error. destruct v as [| | | |s|l|d]; simpl; try naive_solver.
  - destruct (s !! i); naive_solver.
  - destruct (l !! i); naive_solver.
Qed.

Lemma bind_error {A B} (P : exn → Prop) (r : result A) (f : A → result B) e :
  (∀ e, r = Raise e → P e) → (∀ a e, f a = Raise e → P e) →
  r ≫= f = Raise e → P e.
Proof.
  intros Hr Hf. destruct r as [a|e']; simpl; [apply Hf|].
  intros [= <-]. by apply Hr.
Qed.

Lemma sort_key_error v e : sort_key v = Raise e → lookup_error e.
Proof.
  unfold sort_key. revert e.
  repeat (intros e; apply (bind_error lookup_error); clear e;
          [intros e; apply getitem_str_error || apply getitem_int_error
          |intros ?]).
  intros e. apply getitem_int_error.
Qed.

Lemma str_key_Some v k : str_key v = Some k ↔ sort_key v = Ok (VStr k).
Proof.
  unfold str_key. destruct (sort_key v) as [[]|]; split; congruence.
Qed.

(** [sorted] stops at the first element, in list order, whose key
    raises. *)
Lemma keyed_first_raise f l v e :
  v ∈ l → f v = Raise e →
  ∃ pre v' post e',
    l = pre ++ v' :: post
    ∧ Forall (λ w, ∃ k, f w = Ok k) pre
    ∧ f v' = Raise e'
    ∧ keyed f l = Raise e'.
Proof.
  intros Hv Hf. induction l as [|w l IH]; [by apply elem_of_nil in Hv|].
  simpl. destruct (f w) as [k|e1] eqn:E; simpl.
  - apply elem_of_cons in Hv as [->|Hv]; [congruence|].
    destruct (IH Hv) as (pre & v' & post & e' & -> & Hpre & Hv' & ->).
    exists (w :: pre), v', post, e'. split_and!; try done.
    constructor; [by exists k|done].
  - exists [], w, l, e1. by split_and!.
Qed.

(** ** The loader *)

Section loader_properties.
Variable json_loads : str → result pyval.

Lemma decoded_cons ln lines :
  decoded json_loads (ln :: lines)
  = match json_loads ln with
    | Ok v => v :: decoded json_loads lines
    | Raise _ => decoded json_loads lines
    end.
Proof. unfold decoded. simpl. by destruct (json_loads ln). Qed.

Lemma load_lines_decoded lines out :
  Forall (λ ln, accepted json_loads ln ∨ rejected json_loads ln)
         (strip <$> filter (λ ln, ¬ blank ln) lines) →
  load_lines json_loads lines out
  = Ok (out ++ decoded json_loads (strip <$> filter (λ ln, ¬ blank ln) lines)).
Proof.
  revert out. induction lines as [|ln lines IH]; intros out H.
  { simpl. by rewrite app_nil_r. }
  simpl load_lines. rewrite filter_cons in *.
  destruct (decide (¬ blank ln)) as [Hb|Hb].
  - rewrite bool_decide_false by (by rewrite strip_nil).
    rewrite fmap_cons, decoded_cons in *. apply Forall_cons in H as [Hln H].
    destruct Hln as [[v Hv]|Hrej].
    + rewrite Hv, IH by done. by rewrite <-(assoc_L (++)).
    + rewrite Hrej. by apply IH.
  - rewrite bool_decide_true; [by apply IH|].
    apply strip_nil. by destruct (decide (blank ln)).
Qed.

(** When the text decodes and [json.loads] raises nothing but
    [JSONDecodeError], the loader sorts the decoded lines. *)
Lemma load_rollouts_sorts raw text :
  decode_utf8 raw = Ok text →
  Forall (λ ln, accepted json_loads ln ∨ rejected json_loads ln)
         (stripped_lines text) →
  load_rollouts json_loads raw
  = sorted (decoded json_loads (stripped_lines text)) sort_key.
Proof.
  intros Hd Hl. unfold load_rollouts. rewrite Hd, result_bind_ok.
  by rewrite (load_lines_decoded _ [] Hl), result_bind_ok.
Qed.

Lemma elem_of_decoded v lines :
  v ∈ decoded json_loads lines ↔ ∃ ln, ln ∈ lines ∧ json_loads ln = Ok v.
Proof.
  unfold decoded. rewrite list_elem_of_omap. split.
  - intros (ln & Hln & H). exists ln. split; [done|].
    destruct (json_loads ln); congruence.
  - intros (ln & Hln & H). exists ln. by rewrite H.
Qed.





(** C1: sort correctness. When the bytes decode as UTF-8, [json.loads]
    raises nothing but [JSONDecodeError], and every line that decodes
    has a string at prompt.messages[1].content.parts[0], [load_rollouts]
    returns a sequence whose keys are non-decreasing in string order. *)
Theorem load_rollouts_sorted raw text :
  decode_utf8 raw = Ok text →
  Forall (λ ln, accepted json_loads ln ∨ rejected json_loads ln)
         (stripped_lines text) →
  Forall (λ v, is_Some (str_key v)) (decoded json_loads (stripped_lines text)) →
  ∃ out ks, load_rollouts json_loads raw = Ok out
            ∧ Forall2 (λ v k, sort_key v = Ok (VStr k)) out ks
            ∧ StronglySorted str_le ks.
Proof.
  intros Hd Hl Hk. rewrite (load_rollouts_sorts _ _ Hd Hl).
  destruct (sorted_str _ Hk) as (r & -> & Hr & Hs & _).
  exists (r.*2), (r.*1). split_and!; [done| |].
  - apply Forall2_fmap, Forall_Forall2_diag.
    eapply Forall_impl; [exact Hr|]. intros p Hp. by apply str_key_Some.
  - eapply StronglySorted_fmap; [|exact Hs]. done.
Qed.

(** C3: a line that decodes to a value without the sort-key path, that
    is, a value on which the lookup
    [x['prompt']['messages'][1]['content']['parts'][0]] raises (a key
    missing from a mapping, a list too short for the index, a value that
    cannot be subscripted that way), is not dropped and no list is
    returned: [load_rollouts] raises, and what it raises is the
    [KeyError], [IndexError] or [TypeError] of the lookup on the first
    such record in line order. *)
Theorem load_rollouts_missing_sort_key raw text ln v e :
  decode_utf8 raw = Ok text →
  Forall (λ ln, accepted json_loads ln ∨ rejected json_loads ln)
         (stripped_lines text) →
  ln ∈ stripped_lines text →
  json_loads ln = Ok v →
  sort_key v = Raise e →
  ∃ pre v' post e',
    decoded json_loads (stripped_lines text) = pre ++ v' :: post
    ∧ Forall (λ w, ∃ k, sort_key w = Ok k) pre
    ∧ sort_key v' = Raise e'
    ∧ load_rollouts json_loads raw = Raise e'
    ∧ lookup_error e'.
Proof.
  intros Hd Hl Hln Hv He.
  rewrite (load_rollouts_sorts _ _ Hd Hl).
  assert (v ∈ decoded json_loads (stripped_lines text)) as Hin.
  { apply elem_of_decoded. by exists ln. }
  destruct (keyed_first_raise _ _ _ _ Hin He)
    as (pre & v' & post & e' & Hdec & Hpre & Hv' & Hk).
  exists pre, v', post, e'. split_and!; try done.
  - unfold sorted. by rewrite Hk.
  - by eapply sort_key_error.
Qed.


(** C10: the sort is stable. Under the conditions of C1, the returned
    records of any one key are the decoded records of that key, in the
    order of their lines. *)
Theorem load_rollouts_stable raw text :
  decode_utf8 raw = Ok text →
  Forall (λ ln, accepted json_loads ln ∨ rejected json_loads ln)
         (stripped_lines text) →
  Forall (λ v, is_Some (str_key v)) (decoded json_loads (stripped_lines text)) →
  ∃ out, load_rollouts json_loads raw = Ok out
         ∧ ∀ s, filter (λ v, str_key v = Some s) out
                = filter (λ v, str_key v = Some s)
                         (decoded json_loads (stripped_lines text)).
Proof.
  intros Hd Hl Hk. rewrite (load_rollouts_sorts _ _ Hd Hl).
  destruct (sorted_str _ Hk) as (r & -> & _ & _ & _ & Hf).
  by exists (r.*2).
Qed.

(** ** The memoised loader *)

Lemma load_rollouts_cached_sound (cache : gmap bytes (list pyval)) raw :
  (∀ b out, cache !! b = Some out → load_rollouts json_loads b = Ok out) →
  (load_rollouts_cached json_loads cache raw).2 = load_rollouts json_loads raw
  ∧ ∀ b out, (load_rollouts_cached json_loads cache raw).1 !! b = Some out →
             load_rollouts json_loads b = Ok out.
Proof.
  intros Hc. unfold load_rollouts_cached.
  destruct (cache !! raw) as [out|] eqn:E; simpl.
  { split; [symmetry; by apply Hc|done]. }
  destruct (load_rollouts json_loads raw) as [out|e] eqn:El; simpl.
  - split; [done|]. intros b out' Hb.
    destruct (decide (raw = b)) as [<-|Hne].
    + rewrite lookup_insert_eq in Hb. congruence.
    + rewrite lookup_insert_ne in Hb by done. by apply Hc.
  - done.
Qed.

End loader_properties.

(** ** The renderer *)

Lemma bind_lift_ok {A B} (a : A) (f : A → ui B) : lift (Ok a) ≫= f = f a.
Proof. unfold lift, mbind, ui_bind. simpl. by destruct (f a). Qed.

Lemma bind_lift_raise {A B} (e : exn) (f : A → ui B) :
  lift (Raise e) ≫= f = ([], Raise e).
Proof. reflexivity. Qed.

Lemma bind_ok {A B} (ev : list element) (a : A) (f : A → ui B) :
  ((ev, Ok a) : ui A) ≫= f = (ev ++ (f a).1, (f a).2).
Proof. reflexivity. Qed.

Lemma bind_raise {A B} (ev : list element) (e : exn) (f : A → ui B) :
  ((ev, Raise e) : ui A) ≫= f = (ev, Raise e).
Proof. reflexivity. Qed.

Lemma ui_ret_bind {A B} (a : A) (f : A → ui B) : mret a ≫= f = f a.
Proof. apply bind_lift_ok. Qed.

Lemma ui_bind_assoc {A B C} (m : ui A) (f : A → ui B) (g : B → ui C) :
  (m ≫= f) ≫= g = m ≫= λ x, f x ≫= g.
Proof.
  destruct m as [ev [a|e]]; [|done]. rewrite !bind_ok.
  destruct (f a) as [ev1 [b|e1]]; [|done]. rewrite !bind_ok. simpl.
  by rewrite (assoc_L (++)).
Qed.

Lemma for_each_cons x l body :
  for_each (x :: l) body = (body x ;; for_each l body).
Proof. reflexivity. Qed.

Lemma for_each_app l1 l2 body :
  for_each (l1 ++ l2) body = (for_each l1 body ;; for_each l2 body).
Proof.
  induction l1 as [|x l1 IH].
  - change (for_each [] body) with (mret () : ui unit).
    by rewrite ui_ret_bind.
  - change ((x :: l1) ++ l2) with (x :: (l1 ++ l2)).
    by rewrite !for_each_cons, IH, ui_bind_assoc.
Qed.

Lemma for_each_raise l1 x l2 body ev1 ev e :
  for_each l1 body = (ev1, Ok ()) →
  body x = (ev, Raise e) →
  for_each (l1 ++ x :: l2) body = (ev1 ++ ev, Raise e).
Proof.
  intros H1 Hx. by rewrite for_each_app, for_each_cons, H1, Hx.
Qed.

(** A loop over a list with a failing body raises. *)
Lemma for_each_raises l x body ev e :
  x ∈ l → body x = (ev, Raise e) → ∃ e', (for_each l body).2 = Raise e'.
Proof.
  intros Hx Hb. induction l as [|y l IH]; [by apply elem_of_nil in Hx|].
  rewrite for_each_cons. destruct (body y) as [evy [[]|ey]] eqn:E.
  - apply elem_of_cons in Hx as [->|Hx]; [congruence|].
    destruct (IH Hx) as [e' He']. exists e'. by rewrite bind_ok.
  - by exists ey.
Qed.

Lemma ne_str_false v s : ne_str v s = false ↔ v = VStr s.
Proof.
  destruct v; simpl; try (split; congruence).
  rewrite negb_false_iff, bool_decide_eq_true. split; congruence.
Qed.

Lemma channel_test msg s (skip body : ui unit) ch :
  getitem_str msg (lit "channel") = Ok ch →
  (channel ← lift (getitem_str msg (lit "channel"));
   if ne_str channel s then skip else body)
  = if decide (channel_is s msg) then body else skip.
Proof.
  intros Hch. case_decide as H; unfold channel_is in H;
    rewrite Hch in H |- *; rewrite bind_lift_ok.
  - injection H as ->. by rewrite (proj2 (ne_str_false _ _)).
  - destruct (ne_str ch s) eqn:E; [done|].
    apply ne_str_false in E as ->. done.
Qed.

Lemma chat_message_str role :
  chat_message (VStr role) = Ok (ChatMessage (VStr role)).
Proof. reflexivity. Qed.

Lemma chat_message_ok role message :
  chat_message role = Ok message → is_str role ∧ message = ChatMessage role.
Proof. destruct role; simpl; intros [= <-]. split; [by eexists|done]. Qed.

Lemma chat_message_error role e :
  chat_message role = Raise e →
  (role = VNone ∧ e = StreamlitAPIException)
  ∨ (role ≠ VNone ∧ ¬ is_str role ∧ e = AttributeError).
Proof.
  destruct role; simpl; intros [= <-]; try (left; done);
    right; split_and!; try done; intros [s [=]].
Qed.

Lemma show_analysis_visible msg : show_analysis msg ≠ mret ().
Proof.
  unfold show_analysis. destruct (author_role msg) as [role|e];
    [|rewrite bind_lift_raise; intros [=]].
  rewrite bind_lift_ok. destruct (chat_message role) as [message|e].
  - rewrite bind_lift_ok. unfold within. intros [=].
  - rewrite bind_lift_raise. intros [=].
Qed.

Lemma show_final_visible msg : show_final msg ≠ mret ().
Proof.
  unfold show_final.
  match goal with |- lift ?r ≫= _ ≠ _ => destruct r as [part|e] end;
    [|rewrite bind_lift_raise; intros [=]].
  rewrite bind_lift_ok. destruct (author_role msg) as [role|e];
    [|rewrite bind_lift_raise; intros [=]].
  rewrite bind_lift_ok. destruct (chat_message role) as [message|e].
  - rewrite bind_lift_ok. unfold within. intros [=].
  - rewrite bind_lift_raise. intros [=].
Qed.

(** What a message shows when its rendering returns: one chat message,
    labelled with its [author.role]. *)
Lemma show_analysis_ok msg evs :
  show_analysis msg = (evs, Ok ()) → ∃ e, evs = [e] ∧ chat_of msg e.
Proof.
  unfold show_analysis, chat_of.
  destruct (author_role msg) as [role|e] eqn:E; [|by rewrite bind_lift_raise].
  rewrite bind_lift_ok.
  destruct (chat_message role) as [message|e] eqn:Ec;
    [|by rewrite bind_lift_raise].
  apply chat_message_ok in Ec as [_ ->].
  rewrite bind_lift_ok. unfold within. intros [= <- _].
  eexists. split; [done|]. by do 2 eexists.
Qed.

Lemma show_final_ok msg evs :
  show_final msg = (evs, Ok ()) → ∃ e, evs = [e] ∧ chat_of msg e.
Proof.
  unfold show_final, chat_of.
  match goal with
  | |- context [lift (?a ≫= ?f)] => destruct (a ≫= f) as [part|e]
  end; [|by rewrite bind_lift_raise].
  rewrite bind_lift_ok.
  destruct (author_role msg) as [role|e] eqn:E; [|by rewrite bind_lift_raise].
  rewrite bind_lift_ok.
  destruct (chat_message role) as [message|e] eqn:Ec;
    [|by rewrite bind_lift_raise].
  apply chat_message_ok in Ec as [_ ->].
  rewrite bind_lift_ok. unfold within. intros [= <-].
  eexists. split; [done|]. by do 2 eexists.
Qed.

(** What a message shows when its rendering raises: nothing, or the chat
    message that was open. *)
Lemma show_analysis_chat msg : Forall (chat_of msg) (show_analysis msg).1.
Proof.
  unfold show_analysis, chat_of.
  destruct (author_role msg) as [role|e] eqn:E;
    [|rewrite bind_lift_raise; constructor].
  rewrite bind_lift_ok.
  destruct (chat_message role) as [message|e] eqn:Ec;
    [|rewrite bind_lift_raise; constructor].
  apply chat_message_ok in Ec as [_ ->].
  rewrite bind_lift_ok. unfold within. repeat constructor. by do 2 eexists.
Qed.

Lemma show_final_chat msg : Forall (chat_of msg) (show_final msg).1.
Proof.
  destruct (show_final msg) as [evs [[]|e]] eqn:E.
  - apply show_final_ok in E as (e & -> & He). by repeat constructor.
  - revert E. unfold show_final.
    match goal with
    | |- context [lift (?a ≫= ?f)] => destruct (a ≫= f) as [part|e']
    end; [|rewrite bind_lift_raise; intros [= <- _]; constructor].
    rewrite bind_lift_ok.
    destruct (author_role msg) as [role|e'];
      [|rewrite bind_lift_raise; intros [= <- _]; constructor].
    rewrite bind_lift_ok.
    destruct (chat_message role) as [message|e'];
      [|rewrite bind_lift_raise; intros [= <- _]; constructor].
    rewrite bind_lift_ok. unfold within, emit. simpl. intros [=].
Qed.

Lemma for_each_filter s msgs skipping shown :
  Forall (λ m, skipping m = if decide (channel_is s m) then shown m else mret ())
         msgs →
  for_each msgs skipping = for_each (filter (channel_is s) msgs) shown.
Proof.
  induction 1 as [|m msgs Hm _ IH]; [done|].
  rewrite filter_cons, for_each_cons, Hm, IH.
  case_decide; [done|]. by rewrite ui_ret_bind.
Qed.

Lemma for_each_shows_in (P : element → Prop) l body :
  (∀ x, x ∈ l → Forall P (body x).1) → Forall P (for_each l body).1.
Proof.
  induction l as [|x l IH]; intros Hb; [constructor|].
  rewrite for_each_cons. destruct (body x) as [ev [[]|e]] eqn:E.
  - rewrite bind_ok. apply Forall_app. split.
    + specialize (Hb x). rewrite E in Hb. apply Hb. left.
    + apply IH. intros y Hy. apply Hb. by right.
  - rewrite bind_raise. specialize (Hb x). rewrite E in Hb. apply Hb. left.
Qed.

(** A loop whose bodies all return shows, for each item, what its body
    shows. *)
Lemma for_each_returns msgs (shown : pyval → ui unit) :
  Forall (λ m, ∃ e, shown m = ([e], Ok ())) msgs →
  ∃ evs, for_each msgs shown = (evs, Ok ())
         ∧ Forall2 (λ m e, shown m = ([e], Ok ())) msgs evs.
Proof.
  induction 1 as [|m msgs [e Hm] _ (evs & IH & Hevs)].
  { exists []. split; [done|constructor]. }
  exists (e :: evs). rewrite for_each_cons, Hm, bind_ok, IH.
  split; [done|]. by constructor.
Qed.

Lemma channel_test_chat s msg (shown : pyval → ui unit) :
  Forall (chat_of msg) (shown msg).1 →
  Forall (λ e, channel_is s msg ∧ chat_of msg e)
         (channel ← lift (getitem_str msg (lit "channel"));
          if ne_str channel s then mret () else shown msg).1.
Proof.
  intros Hs. destruct (getitem_str msg (lit "channel")) as [ch|e] eqn:E;
    [|rewrite bind_lift_raise; constructor].
  rewrite bind_lift_ok. destruct (ne_str ch s) eqn:En; [constructor|].
  apply ne_str_false in En as ->.
  eapply Forall_impl; [exact Hs|]. by intros e He.
Qed.

(** C5: channel filtering. Whatever the conversation, everything inside
    the expander of the analysis block is the chat message of a message
    whose channel is [analysis], and everything the final block shows is
    the chat message of a message whose channel is [final]. And when the
    messages all carry a channel and those of the two channels render,
    both blocks return, the expander holds exactly one chat message for
    each [analysis] message and the final block exactly one for each
    [final] message, in the order of the conversation; each loop passes
    over a message, showing nothing, exactly when its channel is not the
    loop's own, so a message of any other channel appears in neither. *)
Theorem channel_filtering rollout msgs :
  conversation_messages rollout = Ok msgs →
  ∃ inside after ra rf,
    analysis_block rollout
    = ([Expander (lit "Analysis channel") true inside], ra)
    ∧ final_block rollout = (after, rf)
    ∧ Forall (λ e, ∃ m, m ∈ msgs ∧ channel_is (lit "analysis") m ∧ chat_of m e)
             inside
    ∧ Forall (λ e, ∃ m, m ∈ msgs ∧ channel_is (lit "final") m ∧ chat_of m e)
             after
    ∧ (Forall (λ m, ∃ ch, getitem_str m (lit "channel") = Ok ch) msgs →
       Forall (λ m, channel_is (lit "analysis") m → (show_analysis m).2 = Ok ())
              msgs →
       Forall (λ m, channel_is (lit "final") m → (show_final m).2 = Ok ())
              msgs →
       ra = Ok () ∧ rf = Ok ()
       ∧ Forall2 (λ m e, chat_of m e ∧ show_analysis m = ([e], Ok ()))
                 (filter (channel_is (lit "analysis")) msgs) inside
       ∧ Forall2 (λ m e, chat_of m e ∧ show_final m = ([e], Ok ()))
                 (filter (channel_is (lit "final")) msgs) after
       ∧ ∀ m, m ∈ msgs →
           (analysis_message m = mret () ↔ ¬ channel_is (lit "analysis") m)
           ∧ (final_message m = mret () ↔ ¬ channel_is (lit "final") m)).
Proof.
  intros Hmsgs. unfold analysis_block, final_block.
  rewrite Hmsgs, !bind_lift_ok.
  destruct (for_each msgs analysis_message) as [inside ra] eqn:Ea.
  destruct (for_each msgs final_message) as [after rf] eqn:Ef.
  exists inside, after, ra, rf. split_and!; [done|done| | |].
  - change inside with (inside, ra).1. rewrite <-Ea.
    apply for_each_shows_in. intros m Hm.
    eapply Forall_impl;
      [apply (channel_test_chat (lit "analysis") m show_analysis),
             show_analysis_chat|].
    intros e [Hch He]. by exists m.
  - change after with (after, rf).1. rewrite <-Ef.
    apply for_each_shows_in. intros m Hm.
    eapply Forall_impl;
      [apply (channel_test_chat (lit "final") m show_final), show_final_chat|].
    intros e [Hch He]. by exists m.
  - intros Hch Hra Hrf.
    assert (Forall (λ m, analysis_message m
                         = if decide (channel_is (lit "analysis") m)
                           then show_analysis m else mret ()) msgs) as Ha.
    { eapply Forall_impl; [exact Hch|]. intros m [ch Hm].
      by apply channel_test with ch. }
    assert (Forall (λ m, final_message m
                         = if decide (channel_is (lit "final") m)
                           then show_final m else mret ()) msgs) as Hf.
    { eapply Forall_impl; [exact Hch|]. intros m [ch Hm].
      by apply channel_test with ch. }
    rewrite (for_each_filter _ _ _ _ Ha) in Ea.
    rewrite (for_each_filter _ _ _ _ Hf) in Ef.
    destruct (for_each_returns (filter (channel_is (lit "analysis")) msgs)
                show_analysis) as (evs & Hevs & Hall).
    { apply Forall_forall. intros m [Hm Hin]%list_elem_of_filter.
      rewrite Forall_forall in Hra. specialize (Hra m Hin Hm).
      destruct (show_analysis m) as [ev r] eqn:E. simpl in Hra. subst r.
      destruct (show_analysis_ok _ _ E) as (e & -> & _). by exists e. }
    destruct (for_each_returns (filter (channel_is (lit "final")) msgs)
                show_final) as (evs' & Hevs' & Hall').
    { apply Forall_forall. intros m [Hm Hin]%list_elem_of_filter.
      rewrite Forall_forall in Hrf. specialize (Hrf m Hin Hm).
      destruct (show_final m) as [ev r] eqn:E. simpl in Hrf. subst r.
      destruct (show_final_ok _ _ E) as (e & -> & _). by exists e. }
    rewrite Hevs in Ea. rewrite Hevs' in Ef.
    injection Ea as <- <-. injection Ef as <- <-.
    split_and!; [done|done| | |].
    + eapply Forall2_impl; [exact Hall|]. intros m e Hm. split; [|done].
      destruct (show_analysis_ok _ _ Hm) as (e' & [= <-] & He). done.
    + eapply Forall2_impl; [exact Hall'|]. intros m e Hm. split; [|done].
      destruct (show_final_ok _ _ Hm) as (e' & [= <-] & He). done.
    + intros m Hm. rewrite Forall_forall in Ha, Hf.
      rewrite (Ha m Hm), (Hf m Hm). split; case_decide; split; try done.
      * intros Hs. by apply show_analysis_visible in Hs.
      * intros Hs. by apply show_final_visible in Hs.
Qed.

Lemma getitem_str_dict d k :
  getitem_str (VDict d) k
  = match dict_lookup k d with Some v => Ok v | None => Raise KeyError end.
Proof. reflexivity. Qed.

Lemma get_dict d k dflt :
  get (VDict d) k dflt = Ok (default dflt (dict_lookup k d)).
Proof. reflexivity. Qed.

Lemma message_of_channel d s (skip body : ui unit) :
  dict_lookup (lit "channel") d = Some (VStr s) →
  (channel ← lift (getitem_str (VDict d) (lit "channel"));
   if ne_str channel s then skip else body) = body.
Proof.
  intros Hch. rewrite getitem_str_dict, Hch, bind_lift_ok.
  by rewrite (proj2 (ne_str_false _ _)).
Qed.

(** The body shown by the final loop is [part], the value of
    [msg.get("content", {}).get("parts", [""])[0]]. *)
Lemma show_final_part d role part :
  author_role (VDict d) = Ok (VStr role) →
  (parts ← get (default (VDict []) (dict_lookup (lit "content") d))
             (lit "parts") (VList [VStr []]);
   getitem_int parts 0) = part →
  show_final (VDict d)
  = match part with
    | Ok p => ([ChatMessage (VStr role) [Write p true]], Ok ())
    | Raise e => ([], Raise e)
    end.
Proof.
  intros Hrole Hpart. unfold show_final.
  rewrite get_dict, result_bind_ok, Hpart.
  destruct part as [p|e]; [|done].
  by rewrite bind_lift_ok, Hrole, bind_lift_ok, chat_message_str, bind_lift_ok.
Qed.

(** C6: the body of a final-channel message. With a string as
    [author.role], as the data model has it, the message is shown as one
    chat message whose body is [content.parts[0]] when [content] has a
    [parts] field with a first element, and the empty string when
    [parts], or [content] itself, is absent; the absent cases raise
    nothing. *)
Theorem final_body_default d role :
  dict_lookup (lit "channel") d = Some (VStr (lit "final")) →
  author_role (VDict d) = Ok (VStr role) →
  (∀ c parts p,
      dict_lookup (lit "content") d = Some (VDict c) →
      dict_lookup (lit "parts") c = Some parts →
      getitem_int parts 0 = Ok p →
      final_message (VDict d) = ([ChatMessage (VStr role) [Write p true]], Ok ()))
  ∧ (∀ c,
      dict_lookup (lit "content") d = Some (VDict c) →
      dict_lookup (lit "parts") c = None →
      final_message (VDict d)
      = ([ChatMessage (VStr role) [Write (VStr []) true]], Ok ()))
  ∧ (dict_lookup (lit "content") d = None →
      final_message (VDict d)
      = ([ChatMessage (VStr role) [Write (VStr []) true]], Ok ())).
Proof.
  intros Hch Hrole. unfold final_message.
  rewrite (message_of_channel _ _ _ _ Hch). split_and!.
  - intros c parts p Hc Hparts Hp.
    rewrite (show_final_part d role (Ok p)); [done|done|].
    rewrite Hc. simpl default. by rewrite get_dict, Hparts, result_bind_ok.
  - intros c Hc Hparts.
    rewrite (show_final_part d role (Ok (VStr []))); [done|done|].
    rewrite Hc. simpl default. by rewrite get_dict, Hparts.
  - intros Hc.
    rewrite (show_final_part d role (Ok (VStr []))); [done|done|].
    by rewrite Hc.
Qed.

(** C8: a final-channel message whose [content] has a [parts] field
    holding the empty list raises [IndexError], before anything of the
    message is shown, and the loop of the final block stops there: the
    default of [get] stands in for an absent key only. *)
Theorem final_empty_parts_raises d c :
  dict_lookup (lit "channel") d = Some (VStr (lit "final")) →
  dict_lookup (lit "content") d = Some (VDict c) →
  dict_lookup (lit "parts") c = Some (VList []) →
  final_message (VDict d) = ([], Raise IndexError)
  ∧ ∀ pre post evs,
      for_each pre final_message = (evs, Ok ()) →
      for_each (pre ++ VDict d :: post) final_message = (evs, Raise IndexError).
Proof.
  intros Hch Hc Hparts.
  assert (final_message (VDict d) = ([], Raise IndexError)) as Hm.
  { unfold final_message, show_final.
    rewrite (message_of_channel _ _ _ _ Hch).
    rewrite get_dict, result_bind_ok, Hc. simpl default.
    by rewrite get_dict, Hparts. }
  split; [done|]. intros pre post evs Hpre.
  rewrite (for_each_raise _ _ _ _ _ _ _ Hpre Hm). by rewrite app_nil_r.
Qed.

Lemma missing_channel d :
  dict_lookup (lit "channel") d = None →
  analysis_message (VDict d) = ([], Raise KeyError)
  ∧ final_message (VDict d) = ([], Raise KeyError).
Proof.
  intros Hch. unfold analysis_message, final_message.
  by rewrite getitem_str_dict, Hch, !bind_lift_raise.
Qed.

(** C9: a conversation message without a [channel] key. [render_rollout]
    always ends with an exception then; when the prompt and the messages
    before it render, the exception is the [KeyError] of the analysis
    loop, raised inside the expander before the final block starts. The
    final loop raises the same on that message. *)
Theorem missing_channel_raises rollout idx total pre d post :
  conversation_messages rollout = Ok (pre ++ VDict d :: post) →
  dict_lookup (lit "channel") d = None →
  (∃ e, (render_rollout rollout idx total).2 = Raise e)
  ∧ (∀ evp eva,
      prompt_block rollout = (evp, Ok ()) →
      for_each pre analysis_message = (eva, Ok ()) →
      render_rollout rollout idx total
      = (Markdown (header idx total) :: evp
           ++ [Expander (lit "Analysis channel") true eva],
         Raise KeyError))
  ∧ final_message (VDict d) = ([], Raise KeyError).
Proof.
  intros Hmsgs Hch. destruct (missing_channel d Hch) as [Ha Hf].
  unfold render_rollout, analysis_block. rewrite Hmsgs, bind_lift_ok.
  split_and!; [| |done].
  - unfold emit. rewrite bind_ok.
    destruct (prompt_block rollout) as [evp [[]|e]]; [|by exists e].
    rewrite bind_ok.
    destruct (for_each_raises (pre ++ VDict d :: post) (VDict d)
                analysis_message [] KeyError) as [e He]; [|done|].
    { apply elem_of_app. right. left. }
    exists e. unfold within. simpl. by rewrite He.
  - intros evp eva Hp Hpre. unfold emit. rewrite bind_ok, Hp, bind_ok.
    rewrite (for_each_raise _ _ _ _ _ _ _ Hpre Ha). unfold within. simpl.
    by rewrite app_nil_r.
Qed.

(** The resolution of the content of an analysis message. *)
Lemma show_analysis_content d role c :
  author_role (VDict d) = Ok (VStr role) →
  dict_lookup (lit "content") d = Some (VDict c) →
  show_analysis (VDict d)
  = let parts := default VNone (dict_lookup (lit "parts") c) in
    let text := default VNone (dict_lookup (lit "text") c) in
    let result := default VNone (dict_lookup (lit "result") c) in
    if truthy parts then
      match getitem_int parts 0 with
      | Ok p => ([ChatMessage (VStr role) [Write p false]], Ok ())
      | Raise e => ([ChatMessage (VStr role) []], Raise e)
      end
    else if truthy text then ([ChatMessage (VStr role) [Write text false]], Ok ())
    else if truthy result then ([ChatMessage (VStr role) [Write result false]], Ok ())
    else ([ChatMessage (VStr role) []], Ok ()).
Proof.
  intros Hrole Hc. unfold show_analysis.
  rewrite Hrole, bind_lift_ok, chat_message_str, bind_lift_ok.
  rewrite get_dict, Hc, bind_lift_ok. simpl default.
  rewrite !get_dict, bind_lift_ok. cbv zeta.
  destruct (truthy (default VNone (dict_lookup (lit "parts") c))).
  { by destruct (getitem_int _ 0). }
  rewrite bind_lift_ok.
  destruct (truthy (default VNone (dict_lookup (lit "text") c))); [done|].
  rewrite bind_lift_ok.
  by destruct (truthy (default VNone (dict_lookup (lit "result") c))).
Qed.

(** C2, amended: content fallback by truthiness. For an analysis-channel
    message with a string as [author.role] and a [content] mapping, the
    fields
    [parts], [text], [result] are tried in this order and the first one
    whose value is truthy is shown ([parts] by its first element); a
    field that is absent, or present with a falsy value such as the empty
    string, is passed over. So with [text] and [result] present and no
    [parts], [text] is shown when it is truthy, and [result] when [text] is
    falsy and [result] truthy. *)
Theorem analysis_content_priority d role c :
  dict_lookup (lit "channel") d = Some (VStr (lit "analysis")) →
  author_role (VDict d) = Ok (VStr role) →
  dict_lookup (lit "content") d = Some (VDict c) →
  let parts := default VNone (dict_lookup (lit "parts") c) in
  let text := default VNone (dict_lookup (lit "text") c) in
  let result := default VNone (dict_lookup (lit "result") c) in
  analysis_message (VDict d)
  = (if truthy parts then
       match getitem_int parts 0 with
       | Ok p => ([ChatMessage (VStr role) [Write p false]], Ok ())
       | Raise e => ([ChatMessage (VStr role) []], Raise e)
       end
     else if truthy text then ([ChatMessage (VStr role) [Write text false]], Ok ())
     else if truthy result then ([ChatMessage (VStr role) [Write result false]], Ok ())
     else ([ChatMessage (VStr role) []], Ok ()))
  ∧ (dict_lookup (lit "parts") c = None →
     truthy text = true →
     analysis_message (VDict d) = ([ChatMessage (VStr role) [Write text false]], Ok ()))
  ∧ (dict_lookup (lit "parts") c = None →
     truthy text = false → truthy result = true →
     analysis_message (VDict d)
     = ([ChatMessage (VStr role) [Write result false]], Ok ())).
Proof.
  intros Hch Hrole Hc parts text result. unfold analysis_message.
  rewrite (message_of_channel _ _ _ _ Hch).
  rewrite (show_analysis_content d role c Hrole Hc). cbv zeta.
  fold parts text result. split_and!; [done| |].
  - intros Hp Ht. unfold parts. rewrite Hp. simpl. by rewrite Ht.
  - intros Hp Ht Hr. unfold parts. rewrite Hp. simpl. by rewrite Ht, Hr.
Qed.

(** ** The statements on concrete inputs *)

(** The scenario of the specification: the record of prompt A comes
    before the record of prompt B, and rendering it shows the prompt, the
    analysis and the answer. *)
Example scenario :
  ∃ a a' b,
    load_rollouts Decoder.loads rollouts_file = Ok [a; a'; b]
    ∧ str_key a = Some (lit "A") ∧ str_key b = Some (lit "B")
    ∧ render_rollout a 0 3
      = ([Markdown (lit "---" ++ [10] ++ lit "## Rollout 1/3");
          ChatMessage (VStr (lit "user")) [Write (VStr (lit "A")) false];
          Expander (lit "Analysis channel") true
            [ChatMessage assistant [Write (VStr (lit "thinking")) false]];
          ChatMessage assistant [Write (VStr (lit "Answer A")) true]],
         Ok ()).
Proof. do 3 eexists. split_and!; vm_compute; reflexivity. Qed.

Lemma load_rollouts_sorted_witness :
  ∃ out ks, load_rollouts Decoder.loads rollouts_file = Ok out
            ∧ Forall2 (λ v k, sort_key v = Ok (VStr k)) out ks
            ∧ StronglySorted str_le ks.
Proof.
  apply (load_rollouts_sorted Decoder.loads rollouts_file
           (text_of rollouts_file)).
  - vm_compute. reflexivity.
  - compute_done.
  - compute_done.
Defined.

Lemma load_rollouts_missing_sort_key_witness :
  ∃ pre v' post e',
    decoded Decoder.loads (stripped_lines (text_of short_file))
    = pre ++ v' :: post
    ∧ Forall (λ w, ∃ k, sort_key w = Ok k) pre
    ∧ sort_key v' = Raise e'
    ∧ load_rollouts Decoder.loads short_file = Raise e'
    ∧ lookup_error e'.
Proof.
  apply (load_rollouts_missing_sort_key Decoder.loads short_file
           (text_of short_file)
           (json_text "{'prompt':{'messages':['sys']}}")
           (parse "{'prompt':{'messages':['sys']}}")
           IndexError).
  - vm_compute. reflexivity.
  - compute_done.
  - compute_done.
  - vm_compute. reflexivity.
  - vm_compute. reflexivity.
Defined.

(** Decoded lines without the sort-key path, and what the lookup raises
    on each: a missing key, a list too short, and values of another type
    where a mapping or a list is subscripted. *)
Example sort_key_raises :
  sort_key (parse "{'prompt':{}}") = Raise KeyError
  ∧ sort_key (parse "{'prompt':{'messages':['sys']}}") = Raise IndexError
  ∧ sort_key (parse "{'prompt':{'messages':['sys',{'content':{'parts':[]}}]}}")
    = Raise IndexError
  ∧ sort_key (parse "[1]") = Raise TypeError
  ∧ sort_key (parse "{'prompt':{'messages':5}}") = Raise TypeError
  ∧ sort_key (parse "{'prompt':{'messages':{'a':1}}}") = Raise KeyError
  ∧ sort_key (parse "{'prompt':{'messages':['sys','user']}}") = Raise TypeError
  ∧ sort_key (parse "{'prompt':{'messages':['sys',{'content':{'parts':null}}]}}")
    = Raise TypeError
  ∧ sort_key (parse "{'prompt':{'messages':['sys',{'content':{'parts':{}}}]}}")
    = Raise KeyError
  ∧ sort_key (parse "{'prompt':{'messages':['sys',{'content':{'parts':''}}]}}")
    = Raise IndexError.
Proof. split_and!; vm_compute; reflexivity. Qed.


Lemma load_rollouts_stable_witness :
  ∃ out, load_rollouts Decoder.loads rollouts_file = Ok out
         ∧ ∀ s, filter (λ v, str_key v = Some s) out
                = filter (λ v, str_key v = Some s)
                    (decoded Decoder.loads
                       (stripped_lines (text_of rollouts_file))).
Proof.
  apply (load_rollouts_stable Decoder.loads rollouts_file
           (text_of rollouts_file)).
  - vm_compute. reflexivity.
  - compute_done.
  - compute_done.
Defined.

Lemma channel_filtering_witness :
  ∃ thinking answer,
    analysis_block three_channels
    = ([Expander (lit "Analysis channel") true [thinking]], Ok ())
    ∧ final_block three_channels = ([answer], Ok ())
    ∧ filter (channel_is (lit "analysis")) three_messages
      = [three_messages !!! 0%nat]
    ∧ filter (channel_is (lit "final")) three_messages
      = [three_messages !!! 2%nat]
    ∧ chat_of (three_messages !!! 0%nat) thinking
    ∧ chat_of (three_messages !!! 2%nat) answer.
Proof.
  destruct (channel_filtering three_channels three_messages)
    as (inside & after & ra & rf & Ha & Hf & _ & _ & H);
    [vm_compute; reflexivity|].
  destruct H as (-> & -> & H1 & H2 & _).
  - vm_compute. repeat constructor; eexists; reflexivity.
  - vm_compute. repeat constructor.
  - vm_compute. repeat constructor.
  - assert (filter (channel_is (lit "analysis")) three_messages
            = [three_messages !!! 0%nat]) as Ea by (vm_compute; reflexivity).
    assert (filter (channel_is (lit "final")) three_messages
            = [three_messages !!! 2%nat]) as Ef by (vm_compute; reflexivity).
    rewrite Ea in H1. rewrite Ef in H2.
    apply Forall2_cons_inv_l in H1 as (thinking & ? & [Ht _] & ->%Forall2_nil_inv_l & ->).
    apply Forall2_cons_inv_l in H2 as (answer & ? & [Hw _] & ->%Forall2_nil_inv_l & ->).
    exists thinking, answer. by split_and!.
Defined.

Lemma final_body_default_witness :
  final_message (VDict (entries final_answer_message))
  = ([ChatMessage assistant [Write (VStr (lit "Answer")) true]], Ok ()).
Proof.
  refine (proj1 (final_body_default (entries final_answer_message)
                   (lit "assistant") _ _)
            [(lit "parts", VList [VStr (lit "Answer")])]
            (VList [VStr (lit "Answer")]) (VStr (lit "Answer")) _ _ _);
    vm_compute; reflexivity.
Defined.

Lemma final_empty_parts_raises_witness :
  final_message (VDict (entries final_empty_message)) = ([], Raise IndexError).
Proof.
  refine (proj1 (final_empty_parts_raises (entries final_empty_message)
                   [(lit "parts", VList [])] _ _ _));
    vm_compute; reflexivity.
Defined.

Lemma missing_channel_raises_witness :
  render_rollout channelless 0 1
  = ([Markdown (header 0 1);
      ChatMessage (VStr (lit "user")) [Write (VStr (lit "Q")) false];
      Expander (lit "Analysis channel") true
        [ChatMessage assistant [Write (VStr (lit "thinking")) false]]],
     Raise KeyError).
Proof.
  refine (proj1 (proj2 (missing_channel_raises channelless 0 1
                          (take 1 channelless_messages)
                          (entries (channelless_messages !!! 1%nat))
                          [] _ _))
            [ChatMessage (VStr (lit "user")) [Write (VStr (lit "Q")) false]]
            [ChatMessage assistant [Write (VStr (lit "thinking")) false]]
            _ _);
    vm_compute; reflexivity.
Defined.

Lemma analysis_content_priority_witness :
  analysis_message (VDict (entries text_message))
  = ([ChatMessage assistant [Write (VStr (lit "T")) false]], Ok ()).
Proof.
  refine (proj1 (proj2 (analysis_content_priority (entries text_message)
                          (lit "assistant")
                          [(lit "text", VStr (lit "T"));
                           (lit "result", VStr (lit "R"))] _ _ _)) _ _);
    vm_compute; reflexivity.
Defined.

(** C2 as stated fails: with [text] present but empty and [result]
    present, no [parts], the analysis block shows [result], not [text]. *)
Lemma text_priority_counterexample :
  ∃ d c,
    empty_text_message = VDict d
    ∧ dict_lookup (lit "channel") d = Some (VStr (lit "analysis"))
    ∧ dict_lookup (lit "content") d = Some (VDict c)
    ∧ dict_lookup (lit "parts") c = None
    ∧ dict_lookup (lit "text") c = Some (VStr [])
    ∧ dict_lookup (lit "result") c = Some (VStr (lit "R"))
    ∧ analysis_message empty_text_message
      = ([ChatMessage assistant [Write (VStr (lit "R")) false]], Ok ())
    ∧ analysis_message empty_text_message
      ≠ ([ChatMessage assistant [Write (VStr []) false]], Ok ()).
Proof.
  do 2 eexists. split_and!; try (vm_compute; reflexivity).
  vm_compute. discriminate.
Qed.

(** * Further properties *)

(** ** Decoding the bytes *)

Lemma between_spec lo hi b : between lo hi b = true ↔ lo ≤ b ≤ hi.
Proof. unfold between. rewrite andb_true_iff, !Z.leb_le. done. Qed.

Lemma decode_units_spec n bs :
  (length bs ≤ n)%nat →
  (∀ e, decode_units bs = Raise e → e = UnicodeDecodeError)
  ∧ (∀ s, decode_units bs = Ok s → Forall utf8_unit bs).
Proof.
  revert bs. induction n as [|n IH]; intros [|b0 r0] Hn; simpl in Hn;
    try lia; try (split; [discriminate|constructor]).
  simpl decode_units.
  repeat match goal with
         | |- context [if ?c then _ else _] => destruct c eqn:?
         | |- context [match ?l with [] => _ | _ :: _ => _ end] =>
           is_var l; destruct l
         end;
    try (split; [by intros ? [= <-]|discriminate]);
    simpl in Hn;
    match goal with
    | |- context [decode_units ?r] =>
      destruct (IH r) as [He Hs]; [lia|];
      destruct (decode_units r) as [s'|e'] eqn:E; simpl
    end;
    (split; [intros e [= <-]; eauto|]); try discriminate;
    intros s _; specialize (Hs _ eq_refl);
    repeat match goal with
           | H : (_ && _) = true |- _ => apply andb_true_iff in H as [? ?]
           | H : between _ _ _ = true |- _ => apply between_spec in H
           | H : (_ =? _) = true |- _ => apply Z.eqb_eq in H
           | H : (_ =? _) = false |- _ => apply Z.eqb_neq in H
           end;
    repeat (constructor; [unfold utf8_unit; lia|]); done.
Qed.

Lemma decode_utf8_raise raw e : decode_utf8 raw = Raise e → e = UnicodeDecodeError.
Proof. unfold decode_utf8. by eapply decode_units_spec. Qed.

Lemma decode_utf8_units raw text :
  decode_utf8 raw = Ok text → Forall (λ b, utf8_unit (Z.of_N (Byte.to_N b))) raw.
Proof.
  unfold decode_utf8. intros H. eapply (decode_units_spec _ _ (le_n _)) in H.
  by rewrite Forall_fmap in H.
Qed.

(** ** Values and their order *)

Lemma pyval_nested_ind (P : pyval → Prop) :
  P VNone → (∀ b, P (VBool b)) → (∀ n, P (VInt n)) → (∀ f, P (VFloat f)) →
  (∀ s, P (VStr s)) →
  (∀ l, Forall P l → P (VList l)) →
  (∀ d, Forall (λ kv, P kv.2) d → P (VDict d)) →
  ∀ v, P v.
Proof.
  intros HN HB HI HF HS HL HD. fix IH 1.
  intros [|b|n|f|s|l|d];
    [apply HN|apply HB|apply HI|apply HF|apply HS| |].
  - apply HL. induction l as [|x l IHl]; constructor; [apply IH|apply IHl].
  - apply HD. induction d as [|[k x] d IHd]; constructor; [apply IH|apply IHd].
Qed.

(** [<] raises nothing but [TypeError]. *)
Lemma py_lt_error x y e : py_lt x y = Raise e → e = TypeError.
Proof.
  revert y e. induction x as [|b|n|f|s|l Hl|d _] using pyval_nested_ind;
    intros [|b'|n'|f'|s'|l'|d'] e; simpl; try (by intros [= <-]); try done.
  revert l'. induction Hl as [|x l Hx _ IH]; intros [|y l']; simpl; try done.
  destruct (elem_eq x y); [apply IH|apply Hx].
Qed.

(** ** [sorted] on any keys *)

Lemma keyed_ok f l kl :
  keyed f l = Ok kl → kl.*2 = l ∧ Forall (λ p, f p.2 = Ok p.1) kl.
Proof.
  revert kl. induction l as [|x l IH]; intros kl; simpl.
  { intros [= <-]. by split. }
  destruct (f x) as [k|e] eqn:E; simpl; [|done].
  destruct (keyed f l) as [r|e]; simpl; [|done].
  intros [= <-]. destruct (IH r eq_refl) as [<- Hr].
  split; [done|]. by constructor.
Qed.

Lemma keyed_error f l e : keyed f l = Raise e → ∃ v, v ∈ l ∧ f v = Raise e.
Proof.
  induction l as [|x l IH]; simpl; [done|].
  destruct (f x) as [k|e1] eqn:E; simpl.
  - destruct (keyed f l) as [r|e2]; simpl; [done|].
    intros [= <-]. destruct (IH eq_refl) as (v & Hv & Hf).
    exists v. split; [by right|done].
  - intros [= <-]. exists x. split; [left|done].
Qed.

Lemma insort_ok x l l' : insort x l = Ok l' → l' ≡ₚ x :: l.
Proof.
  revert l'. induction l as [|y l IH]; intros l'; simpl.
  { by intros [= <-]. }
  destruct (py_lt x.1 y.1) as [[]|e]; simpl; [by intros [= <-]| |done].
  destruct (insort x l) as [r|e]; simpl; [|done].
  intros [= <-]. rewrite (IH r eq_refl). apply Permutation_swap.
Qed.

Lemma insort_error x l e : insort x l = Raise e → e = TypeError.
Proof.
  induction l as [|y l IH]; simpl; [done|].
  destruct (py_lt x.1 y.1) as [[]|e1] eqn:E; simpl; [done| |].
  - destruct (insort x l) as [r|e2]; simpl; [done|].
    intros [= <-]. by apply IH.
  - intros [= <-]. by eapply py_lt_error.
Qed.

Lemma sort_into_ok acc l r : sort_into acc l = Ok r → r ≡ₚ acc ++ l.
Proof.
  revert acc. induction l as [|x l IH]; intros acc; simpl.
  { intros [= <-]. by rewrite app_nil_r. }
  destruct (insort x acc) as [acc'|e] eqn:E; simpl; [|done].
  intros H. rewrite (IH _ H), (insort_ok _ _ _ E).
  apply Permutation_middle.
Qed.

Lemma sort_into_error acc l e : sort_into acc l = Raise e → e = TypeError.
Proof.
  revert acc. induction l as [|x l IH]; intros acc; simpl; [done|].
  destruct (insort x acc) as [acc'|e1] eqn:E; simpl; [apply IH|].
  intros [= <-]. by eapply insort_error.
Qed.

Lemma sorted_ok l key out :
  sorted l key = Ok out →
  out ≡ₚ l ∧ Forall (λ v, ∃ k, key v = Ok k) l.
Proof.
  unfold sorted. destruct (keyed key l) as [kl|e] eqn:Ek; simpl; [|done].
  destruct (sort_into [] kl) as [r|e] eqn:Es; simpl; [|done].
  intros [= <-]. apply keyed_ok in Ek as [<- Hk]. apply sort_into_ok in Es.
  split; [by rewrite Es|].
  rewrite Forall_fmap. eapply Forall_impl; [exact Hk|].
  intros p Hp. simpl in *. by exists p.1.
Qed.

Lemma sorted_error l e :
  sorted l sort_key = Raise e →
  lookup_error e ∧ (e ≠ TypeError → ∃ v, v ∈ l ∧ sort_key v = Raise e).
Proof.
  unfold sorted. destruct (keyed sort_key l) as [kl|e1] eqn:Ek; simpl.
  - destruct (sort_into [] kl) as [r|e2] eqn:Es; simpl; [done|].
    intros [= <-]. apply sort_into_error in Es as ->.
    split; [right; by right|done].
  - intros [= <-]. apply keyed_error in Ek as (v & Hv & Hf).
    split; [by eapply sort_key_error|]. by exists v.
Qed.

(** ** The loader, whatever it is given *)

Section more_loader.
Variable json_loads : str → result pyval.

Lemma load_lines_ok lines out r :
  load_lines json_loads lines out = Ok r →
  Forall (λ ln, accepted json_loads ln ∨ rejected json_loads ln)
         (strip <$> filter (λ ln, ¬ blank ln) lines).
Proof.
  revert out. induction lines as [|ln lines IH]; intros out; [constructor|].
  simpl load_lines. rewrite filter_cons.
  destruct (decide (¬ blank ln)) as [Hb|Hb].
  - rewrite bool_decide_false by (by rewrite strip_nil). rewrite fmap_cons.
    destruct (json_loads (strip ln)) as [v|e] eqn:E.
    + intros H. constructor; [left; by exists v|by eapply IH].
    + destruct e; try done. intros H. constructor; [by right|by eapply IH].
  - rewrite bool_decide_true; [apply IH|].
    apply strip_nil. by destruct (decide (blank ln)).
Qed.

Lemma load_lines_error lines out e :
  load_lines json_loads lines out = Raise e →
  e ≠ JSONDecodeError
  ∧ ∃ ln, ln ∈ strip <$> filter (λ ln, ¬ blank ln) lines
          ∧ json_loads ln = Raise e.
Proof.
  revert out. induction lines as [|ln lines IH]; intros out; [done|].
  simpl load_lines. rewrite filter_cons.
  destruct (decide (¬ blank ln)) as [Hb|Hb].
  - rewrite bool_decide_false by (by rewrite strip_nil). rewrite fmap_cons.
    assert (∀ out', load_lines json_loads lines out' = Raise e →
              e ≠ JSONDecodeError
              ∧ ∃ ln', ln' ∈ strip ln :: (strip <$> filter (λ ln, ¬ blank ln) lines)
                       ∧ json_loads ln' = Raise e) as Hrest.
    { intros out' [Hne (ln' & Hin & Hl)]%IH. split; [done|].
      exists ln'. split; [by right|done]. }
    destruct (json_loads (strip ln)) as [v|e'] eqn:E; [apply Hrest|].
    destruct e'; try apply Hrest;
      (intros [= <-]; split; [done|]; exists (strip ln); split; [left|done]).
  - rewrite bool_decide_true; [apply IH|].
    apply strip_nil. by destruct (decide (blank ln)).
Qed.

Lemma load_lines_raise lines out pre ln post e :
  strip <$> filter (λ ln, ¬ blank ln) lines = pre ++ ln :: post →
  Forall (λ ln, accepted json_loads ln ∨ rejected json_loads ln) pre →
  json_loads ln = Raise e →
  e ≠ JSONDecodeError →
  load_lines json_loads lines out = Raise e.
Proof.
  intros Hl Hpre Hln Hne. revert out pre Hl Hpre.
  induction lines as [|l lines IH]; intros out pre Hl Hpre.
  { by destruct pre. }
  simpl load_lines. rewrite filter_cons in Hl.
  destruct (decide (¬ blank l)) as [Hb|Hb].
  - rewrite bool_decide_false by (by rewrite strip_nil).
    rewrite fmap_cons in Hl. destruct pre as [|p pre]; simplify_eq/=.
    + rewrite Hln. by destruct e.
    + apply Forall_cons in Hpre as [[[v ->]| ->] Hpre]; by eapply IH.
  - rewrite bool_decide_true; [by eapply IH|].
    apply strip_nil. by destruct (decide (blank l)).
Qed.

(** X1: a byte that occurs in no UTF-8 text, anywhere in the file, makes
    [load_rollouts] raise [UnicodeDecodeError]: no line of the file is
    loaded, however many of them are valid. *)
Theorem load_rollouts_invalid_byte (raw : bytes) (b : byte) :
  b ∈ raw → never_utf8 b →
  load_rollouts json_loads raw = Raise UnicodeDecodeError.
Proof.
  intros Hb Hn. unfold load_rollouts.
  destruct (decode_utf8 raw) as [text|e] eqn:E; simpl.
  - apply decode_utf8_units in E. rewrite Forall_forall in E.
    specialize (E b Hb). unfold never_utf8, utf8_unit in *. lia.
  - by apply decode_utf8_raise in E as ->.
Qed.

(** X2: only [JSONDecodeError] is caught. The first line on which
    [json.loads] raises another exception ends [load_rollouts] with that
    exception. *)
Theorem load_rollouts_other_exception raw text pre ln post e :
  decode_utf8 raw = Ok text →
  stripped_lines text = pre ++ ln :: post →
  Forall (λ ln, accepted json_loads ln ∨ rejected json_loads ln) pre →
  json_loads ln = Raise e →
  e ≠ JSONDecodeError →
  load_rollouts json_loads raw = Raise e.
Proof.
  intros Hd Hl Hpre Hln Hne. unfold load_rollouts.
  rewrite Hd, result_bind_ok.
  by rewrite (load_lines_raise _ _ _ _ _ _ Hl Hpre Hln Hne).
Qed.

(** X3: the exceptions of [load_rollouts]. It never raises
    [JSONDecodeError]; what it raises is [UnicodeDecodeError], an exception
    [json.loads] raised on one of the stripped lines, the [KeyError],
    [IndexError] or [TypeError] of the key of a decoded record, or the
    [TypeError] of a comparison of keys. *)
Theorem load_rollouts_errors raw e :
  load_rollouts json_loads raw = Raise e →
  e ≠ JSONDecodeError
  ∧ (e = UnicodeDecodeError
     ∨ (∃ text ln, decode_utf8 raw = Ok text ∧ ln ∈ stripped_lines text
                   ∧ json_loads ln = Raise e)
     ∨ (∃ text v, decode_utf8 raw = Ok text
                  ∧ v ∈ decoded json_loads (stripped_lines text)
                  ∧ sort_key v = Raise e ∧ lookup_error e)
     ∨ e = TypeError).
Proof.
  unfold load_rollouts.
  destruct (decode_utf8 raw) as [text|e1] eqn:Ed; simpl.
  2:{ intros [= <-]. apply decode_utf8_raise in Ed as ->.
      split; [done|by left]. }
  destruct (load_lines json_loads (splitlines text) []) as [out|e2] eqn:El;
    simpl.
  2:{ intros [= <-]. apply load_lines_error in El as [Hne (ln & Hin & Hl)].
      split; [done|]. right. left. by exists text, ln. }
  intros [Hle Hv]%sorted_error.
  split; [by destruct Hle as [->|[->| ->]]|].
  destruct (decide (e = TypeError)) as [->|Hne]; [by do 3 right|].
  destruct (Hv Hne) as (v & Hin & Hk). right. right. left.
  exists text, v. split_and!; try done.
  pose proof (load_lines_ok _ _ _ El) as Hok.
  rewrite (load_lines_decoded _ _ [] Hok) in El. by simplify_eq/=.
Qed.

(** X4: what a returned list tells. When [load_rollouts] returns, the
    bytes were UTF-8, [json.loads] raised nothing but [JSONDecodeError],
    and the list holds the decoded values of the lines, each once for each
    of its lines, every one of them with a sort key. *)
Theorem load_rollouts_returns raw out :
  load_rollouts json_loads raw = Ok out →
  ∃ text, decode_utf8 raw = Ok text
          ∧ Forall (λ ln, accepted json_loads ln ∨ rejected json_loads ln)
                   (stripped_lines text)
          ∧ out ≡ₚ decoded json_loads (stripped_lines text)
          ∧ Forall (λ v, ∃ k, sort_key v = Ok k) out.
Proof.
  unfold load_rollouts.
  destruct (decode_utf8 raw) as [text|e1] eqn:Ed; simpl; [|done].
  destruct (load_lines json_loads (splitlines text) []) as [l|e2] eqn:El;
    simpl; [|done].
  intros [Hp Hk]%sorted_ok. exists text.
  pose proof (load_lines_ok _ _ _ El) as Hok.
  rewrite (load_lines_decoded _ _ [] Hok) in El. simplify_eq/=.
  split_and!; try done. by rewrite Hp.
Qed.

(** ** The cache *)

Lemma cache_after_lookup (cache : gmap bytes (list pyval)) inputs raw out :
  cache_after json_loads cache inputs !! raw = Some out ↔
  cache !! raw = Some out
  ∨ (cache !! raw = None ∧ raw ∈ inputs
     ∧ load_rollouts json_loads raw = Ok out).
Proof.
  revert cache. induction inputs as [|b inputs IH]; intros cache; simpl.
  { split; [by left|]. intros [?|(_ & []%elem_of_nil & _)]. done. }
  rewrite IH. unfold load_rollouts_cached.
  destruct (cache !! b) as [o|] eqn:Eb; simpl.
  { split; [intros [?|(? & ? & ?)]; [by left|right; split_and!; try done;
                                              by right]|].
    intros [?|(Hn & [->|Hin]%elem_of_cons & Hl)]; [by left|congruence|].
    by right. }
  destruct (load_rollouts json_loads b) as [o|e] eqn:El; simpl.
  - destruct (decide (b = raw)) as [->|Hne].
    + rewrite lookup_insert_eq, Eb. split.
      * intros [[= <-]|(? & _)]; [|done]. right. split_and!; [done|left|done].
      * intros [?|(_ & _ & Hl)]; [done|]. left. congruence.
    + rewrite lookup_insert_ne by done. split.
      * intros [?|(? & ? & ?)]; [by left|]. right. split_and!; try done.
        by right.
      * intros [?|(? & [->|?]%elem_of_cons & ?)]; [by left|done|by right].
  - split.
    + intros [?|(? & ? & ?)]; [by left|]. right. split_and!; try done.
      by right.
    + intros [?|(? & [->|?]%elem_of_cons & ?)]; [by left|congruence|by right].
Qed.

(** X5: what the cache of [st.cache_data] holds. After any run of calls
    started with an empty cache, the cache maps exactly the inputs on
    which the loader returned, each to the list it returned; an input on
    which it raised is not stored. *)
Theorem cache_holds_returned_inputs (inputs : list bytes) (raw : bytes) out :
  cache_after json_loads ∅ inputs !! raw = Some out ↔
  raw ∈ inputs ∧ load_rollouts json_loads raw = Ok out.
Proof.
  rewrite cache_after_lookup, lookup_empty. split.
  - by intros [?|(_ & ? & ?)].
  - intros [? ?]. by right.
Qed.

End more_loader.

(** ** The lines [json.loads] is called on *)

Lemma lstrip_app_nonspace l h :
  is_space h = false → lstrip (l ++ [h]) = lstrip l ++ [h].
Proof.
  intros Hh. induction l as [|c l IH]; simpl; [by rewrite Hh|].
  by destruct (is_space c).
Qed.

Lemma lstrip_head s :
  lstrip s = [] ∨ ∃ h t, lstrip s = h :: t ∧ is_space h = false.
Proof.
  induction s as [|c s IH]; simpl; [by left|].
  destruct (is_space c) eqn:E; [exact IH|]. right. by exists c, s.
Qed.

Lemma lstrip_nonspace h t : is_space h = false → lstrip (h :: t) = h :: t.
Proof. intros Hh. simpl. by rewrite Hh. Qed.

Lemma lstrip_lstrip s : lstrip (lstrip s) = lstrip s.
Proof.
  destruct (lstrip_head s) as [->|(h & t & -> & Hh)]; [done|].
  by apply lstrip_nonspace.
Qed.

Lemma rstrip_rstrip s : rstrip (rstrip s) = rstrip s.
Proof. unfold rstrip. by rewrite reverse_involutive, lstrip_lstrip. Qed.

Lemma rstrip_nonspace h t :
  is_space h = false → rstrip (h :: t) = h :: rstrip t.
Proof.
  intros Hh. unfold rstrip.
  rewrite reverse_cons, (lstrip_app_nonspace _ _ Hh).
  by rewrite reverse_app.
Qed.

Lemma strip_strip s : strip (strip s) = strip s.
Proof.
  unfold strip.
  destruct (lstrip_head s) as [->|(h & t & -> & Hh)]; [done|].
  rewrite (rstrip_nonspace _ _ Hh), (lstrip_nonspace _ _ Hh).
  by rewrite (rstrip_nonspace _ _ Hh), rstrip_rstrip.
Qed.

Lemma Forall_lstrip (P : char → Prop) s : Forall P s → Forall P (lstrip s).
Proof.
  induction 1 as [|c s Hc Hs IH]; simpl; [constructor|].
  destruct (is_space c); [done|by constructor].
Qed.

Lemma Forall_strip (P : char → Prop) s : Forall P s → Forall P (strip s).
Proof.
  intros H. unfold strip, rstrip.
  apply Forall_reverse, Forall_lstrip, Forall_reverse. by apply Forall_lstrip.
Qed.

Lemma splitlines_from_no_break n cur s :
  (length s ≤ n)%nat →
  Forall (λ c, is_linebreak c = false) cur →
  Forall (Forall (λ c, is_linebreak c = false)) (splitlines_from cur s).
Proof.
  revert cur s. induction n as [|n IH]; intros cur [|c s] Hn Hcur;
    simpl in Hn; try lia;
    try (simpl; destruct cur; repeat constructor; by apply Forall_reverse).
  assert (Forall (λ c, is_linebreak c = false) (reverse cur)) as Hr
    by by apply Forall_reverse.
  simpl. destruct (c =? 13).
  - destruct s as [|c' s']; [by repeat constructor|].
    simpl in Hn. destruct (c' =? 10); (constructor; [done|]);
      apply IH; simpl; try lia; constructor.
  - destruct (is_linebreak c) eqn:Eb.
    + constructor; [done|]. apply IH; [lia|constructor].
    + apply IH; [lia|]. by constructor.
Qed.

Lemma stripped_lines_clean text : Forall clean (stripped_lines text).
Proof.
  unfold stripped_lines. rewrite Forall_fmap, Forall_forall.
  intros ln [Hb Hin]%list_elem_of_filter. simpl. split_and!.
  - by rewrite strip_nil.
  - apply strip_strip.
  - apply Forall_strip.
    pose proof (splitlines_from_no_break _ [] text (le_n _) (Forall_nil_2 _))
      as H.
    rewrite Forall_forall in H. by apply H.
Qed.

Lemma load_lines_ext (f g : str → result pyval) lines out :
  (∀ ln, ln ∈ strip <$> filter (λ ln, ¬ blank ln) lines → f ln = g ln) →
  load_lines f lines out = load_lines g lines out.
Proof.
  revert out. induction lines as [|ln lines IH]; intros out Hfg; [done|].
  simpl. rewrite filter_cons in Hfg.
  case_bool_decide as Hs; [apply IH|].
  - intros l Hl. apply Hfg. case_decide as Hb; [by right|done].
  - rewrite decide_True in Hfg by (by rewrite <-strip_nil).
    rewrite <-(Hfg (strip ln)) by left.
    assert (∀ out', load_lines f lines out' = load_lines g lines out') as Hr.
    { intros out'. apply IH. intros l Hl. apply Hfg. by right. }
    destruct (f (strip ln)) as [v|e]; [apply Hr|]. destruct e; try done; apply Hr.
Qed.

(** X6: the loader uses [json.loads] on clean lines only: lines that are
    not empty, have no whitespace at either end and no line boundary
    inside. Two decoders that agree on such lines give the same result on
    every file; so a JSON value laid out over several lines is never
    decoded as one record. *)
Theorem load_rollouts_clean_lines (f g : str → result pyval) raw :
  (∀ ln, clean ln → f ln = g ln) →
  load_rollouts f raw = load_rollouts g raw.
Proof.
  intros Hfg. unfold load_rollouts.
  destruct (decode_utf8 raw) as [text|e]; simpl; [|done].
  rewrite (load_lines_ext f g); [done|].
  intros ln Hln. apply Hfg.
  pose proof (stripped_lines_clean text) as H. rewrite Forall_forall in H.
  by apply H.
Qed.

(** ** The renderer, whatever it is given *)

Lemma get_error x k dflt e : get x k dflt = Raise e → e = AttributeError.
Proof. destruct x; simpl; congruence. Qed.

Lemma iter_error x e : iter x = Raise e → e = TypeError.
Proof. destruct x; simpl; congruence. Qed.

Lemma author_role_error msg e : author_role msg = Raise e → lookup_error e.
Proof.
  unfold author_role.
  destruct (getitem_str msg (lit "author")) as [a|e1] eqn:E; simpl.
  - apply getitem_str_error.
  - intros [= <-]. by eapply getitem_str_error.
Qed.

Lemma ui_bind_inv {A B} (m : ui A) (f : A → ui B) evs r :
  m ≫= f = (evs, r) →
  (∃ e, m.2 = Raise e ∧ evs = m.1 ∧ r = Raise e)
  ∨ (∃ a, m.2 = Ok a ∧ evs = m.1 ++ (f a).1 ∧ r = (f a).2).
Proof.
  destruct m as [ev [a|e]].
  - rewrite bind_ok. intros [= <- <-]. right. by exists a.
  - rewrite bind_raise. intros [= <- <-]. left. by exists e.
Qed.

Lemma ui_bind_error {A B} (P : exn → Prop) (m : ui A) (f : A → ui B) :
  (∀ e, m.2 = Raise e → P e) →
  (∀ a e, (f a).2 = Raise e → P e) →
  ∀ e, (m ≫= f).2 = Raise e → P e.
Proof.
  intros Hm Hf e. destruct m as [ev [a|e1]].
  - rewrite bind_ok. apply Hf.
  - rewrite bind_raise. simpl. intros [= <-]. by apply Hm.
Qed.

Lemma ui_bind_shows {A B} (P : element → Prop) (m : ui A) (f : A → ui B) :
  Forall P m.1 → (∀ a, Forall P (f a).1) → Forall P (m ≫= f).1.
Proof.
  intros Hm Hf. destruct m as [ev [a|e1]].
  - rewrite bind_ok. apply Forall_app. by split.
  - by rewrite bind_raise.
Qed.

Lemma for_each_error (P : exn → Prop) l body :
  (∀ x e, (body x).2 = Raise e → P e) →
  ∀ e, (for_each l body).2 = Raise e → P e.
Proof.
  intros Hb. induction l as [|x l IH]; [done|].
  rewrite for_each_cons. apply ui_bind_error; [apply Hb|]. intros _. apply IH.
Qed.

Lemma for_each_shows (P : element → Prop) l body :
  (∀ x, Forall P (body x).1) → Forall P (for_each l body).1.
Proof.
  intros Hb. induction l as [|x l IH]; [constructor|].
  rewrite for_each_cons. by apply ui_bind_shows.
Qed.

Ltac step_lift :=
  match goal with
  | |- context [lift (chat_message ?r) ≫= _] =>
    let E := fresh "E" in
    destruct (chat_message r) eqn:E;
    [apply chat_message_ok in E as [_ ->]|];
    rewrite ?bind_lift_ok, ?bind_lift_raise
  | |- context [lift ?r ≫= _] =>
    let E := fresh "E" in
    destruct r eqn:E; rewrite ?bind_lift_ok, ?bind_lift_raise
  | |- context [if ?b then _ else _] => destruct b
  end.

Lemma existsb_false {A} (f : A → bool) l :
  Forall (λ x, f x = false) l → existsb f l = false.
Proof. induction 1 as [|x l Hx _ IH]; simpl; [done|]. by rewrite Hx, IH. Qed.

Lemma show_analysis_html msg :
  Forall (λ e, writes_html e = false) (show_analysis msg).1.
Proof.
  unfold show_analysis.
  repeat step_lift; unfold within, emit; simpl; repeat constructor.
Qed.

Lemma show_final_html msg :
  Forall (λ e, writes_escaped e = false) (show_final msg).1.
Proof.
  unfold show_final. repeat step_lift; simpl; repeat constructor.
Qed.

Lemma channel_test_shows (P : element → Prop) msg s (body : ui unit) :
  Forall P body.1 →
  Forall P (channel ← lift (getitem_str msg (lit "channel"));
            if ne_str channel s then mret () else body).1.
Proof. intros Hb. repeat step_lift; try done; constructor. Qed.

(** X7: only the final block is written with [unsafe_allow_html=True].
    Whatever the rollout, no [st.write] of the prompt or of the analysis
    block allows HTML, and every [st.write] of the final block does. *)
Theorem html_only_in_final_block rollout :
  Forall (λ e, writes_html e = false) (prompt_block rollout).1
  ∧ Forall (λ e, writes_html e = false) (analysis_block rollout).1
  ∧ Forall (λ e, writes_escaped e = false) (final_block rollout).1.
Proof.
  split_and!.
  - unfold prompt_block.
    repeat step_lift; unfold within, emit; simpl; repeat constructor.
  - unfold analysis_block, within. repeat constructor.
    change (writes_html (Expander ?a ?b ?l)) with (existsb writes_html l).
    apply existsb_false. step_lift; [|constructor].
    apply for_each_shows. intros m.
    apply channel_test_shows, show_analysis_html.
  - unfold final_block. step_lift; [|constructor].
    apply for_each_shows. intros m.
    apply channel_test_shows, show_final_html.
Qed.

Lemma chat_message_render_error role e :
  chat_message role = Raise e → render_error e.
Proof.
  intros [[_ ->]|(_ & _ & ->)]%chat_message_error;
    unfold render_error; tauto.
Qed.

Ltac split_binds :=
  repeat match goal with
         | H : (?r ≫= _) = Raise _ |- _ =>
           let E := fresh "E" in
           destruct r eqn:E; [rewrite result_bind_ok in H|simpl in H]
         end.

Ltac solve_error :=
  split_binds; simplify_eq;
  match goal with
  | H : _ = Raise _ |- _ =>
    first [apply getitem_str_error in H
          |apply getitem_int_error in H
          |apply author_role_error in H
          |apply get_error in H
          |apply iter_error in H
          |apply chat_message_render_error in H];
    unfold render_error, lookup_error in *; tauto
  end.

Lemma show_analysis_error msg e :
  (show_analysis msg).2 = Raise e → render_error e.
Proof.
  unfold show_analysis.
  repeat step_lift; unfold within, emit; simpl; try done; intros [= <-];
    solve_error.
Qed.

Lemma show_final_error msg e :
  (show_final msg).2 = Raise e → render_error e.
Proof.
  unfold show_final.
  repeat step_lift; unfold within, emit; simpl; try done; intros [= <-];
    solve_error.
Qed.

Lemma channel_test_error msg s (body : ui unit) e :
  (∀ e, body.2 = Raise e → render_error e) →
  (channel ← lift (getitem_str msg (lit "channel"));
   if ne_str channel s then mret () else body).2 = Raise e →
  render_error e.
Proof.
  intros Hb. repeat step_lift; simpl; try done; try apply Hb.
  intros [= <-]. solve_error.
Qed.

Lemma conversation_messages_error rollout e :
  conversation_messages rollout = Raise e → lookup_error e.
Proof.
  unfold conversation_messages. intros H. split_binds; simplify_eq;
    match goal with
    | H : _ = Raise _ |- _ =>
      first [apply getitem_str_error in H|apply iter_error in H];
      unfold lookup_error in *; tauto
    end.
Qed.

Lemma prompt_block_error rollout e :
  (prompt_block rollout).2 = Raise e → render_error e.
Proof.
  unfold prompt_block.
  repeat step_lift; unfold within, emit; simpl; try done; intros [= <-];
    solve_error.
Qed.

(** X8: the exceptions of [render_rollout], whatever value it is given:
    the [KeyError], [IndexError], [TypeError] or [AttributeError] of its
    own lookups, and what [st.chat_message] raises on a role that is not
    a string, [AttributeError] or Streamlit's own exception. *)
Theorem render_rollout_errors rollout idx total e :
  (render_rollout rollout idx total).2 = Raise e → render_error e.
Proof.
  unfold render_rollout. revert e.
  apply ui_bind_error; [done|]. intros _.
  apply ui_bind_error; [apply prompt_block_error|].
  intros _. apply ui_bind_error.
  - unfold analysis_block. intros e.
    change ((within ?c ?b).2) with (b.2). revert e. step_lift.
    + apply for_each_error. intros m e.
      apply channel_test_error. intros e'. apply show_analysis_error.
    + simpl. intros e' [= <-]. left. by eapply conversation_messages_error.
  - intros _. unfold final_block. step_lift.
    + apply for_each_error. intros m e.
      apply channel_test_error. intros e'. apply show_final_error.
    + simpl. intros e' [= <-]. left. by eapply conversation_messages_error.
Qed.

(** ** The page of a rollout *)

(** X9: the prompt shown is the sort key. For a record with a sort key
    [k], as every record the loader returns has one, and a string as the
    [author.role] of its prompt message, the prompt block is one chat
    message labelled with that role whose body is [k]. The block fails
    only on the role, and shows nothing then: with the lookup error of an
    absent [author.role], with Streamlit's exception for the role
    [null], with [AttributeError] for any other role that is not a
    string. *)
Theorem prompt_shows_sort_key rollout k :
  sort_key rollout = Ok k →
  ∃ p ms prompt,
    getitem_str rollout (lit "prompt") = Ok p
    ∧ getitem_str p (lit "messages") = Ok ms
    ∧ getitem_int ms 1 = Ok prompt
    ∧ prompt_block rollout
      = match author_role prompt with
        | Ok (VStr role) => ([ChatMessage (VStr role) [Write k false]], Ok ())
        | Ok VNone => ([], Raise StreamlitAPIException)
        | Ok _ => ([], Raise AttributeError)
        | Raise e => ([], Raise e)
        end.
Proof.
  unfold sort_key, prompt_block.
  destruct (getitem_str rollout (lit "prompt")) as [p|] eqn:E1; [|done].
  rewrite !result_bind_ok.
  destruct (getitem_str p (lit "messages")) as [ms|] eqn:E2; [|done].
  rewrite !result_bind_ok.
  destruct (getitem_int ms 1) as [prompt|] eqn:E3; [|done].
  rewrite !result_bind_ok. intros Hk.
  exists p, ms, prompt. split_and!; try done.
  rewrite bind_lift_ok. destruct (author_role prompt) as [role|e]; [|done].
  rewrite bind_lift_ok. destruct role; try done.
  by rewrite chat_message_str, bind_lift_ok, Hk, bind_lift_ok.
Qed.

Lemma prompt_block_ok rollout evs :
  prompt_block rollout = (evs, Ok ()) →
  ∃ role k, sort_key rollout = Ok k ∧ evs = [ChatMessage role [Write k false]].
Proof.
  unfold sort_key, prompt_block.
  destruct (getitem_str rollout (lit "prompt")) as [p|] eqn:E1; [|done].
  rewrite !result_bind_ok.
  destruct (getitem_str p (lit "messages")) as [ms|] eqn:E2; [|done].
  rewrite !result_bind_ok.
  destruct (getitem_int ms 1) as [prompt|] eqn:E3; [|done].
  rewrite !result_bind_ok, bind_lift_ok.
  destruct (author_role prompt) as [role|e]; [|by rewrite bind_lift_raise].
  rewrite bind_lift_ok.
  destruct (chat_message role) as [message|e] eqn:Ec;
    [|by rewrite bind_lift_raise].
  apply chat_message_ok in Ec as [_ ->]. rewrite bind_lift_ok.
  match goal with
  | |- context [lift (?a ≫= ?f)] => destruct (a ≫= f) as [k|e] eqn:Ek
  end; [|by rewrite bind_lift_raise].
  rewrite bind_lift_ok. intros [= <-]. by exists role, k.
Qed.

Lemma for_each_chats s msgs (shown : pyval → ui unit) evs :
  (∀ m ev, shown m = (ev, Ok ()) → ∃ e, ev = [e] ∧ chat_of m e) →
  for_each msgs (λ msg,
    channel ← lift (getitem_str msg (lit "channel"));
    if ne_str channel s then mret () else shown msg) = (evs, Ok ()) →
  Forall2 chat_of (filter (channel_is s) msgs) evs.
Proof.
  intros Hs. revert evs. induction msgs as [|m msgs IH]; intros evs.
  { intros [= <-]. constructor. }
  rewrite for_each_cons, filter_cons. cbv beta.
  intros [(e & _ & _ & [=])|([] & Hm & -> & Hr)]%ui_bind_inv.
  destruct (getitem_str m (lit "channel")) as [ch|e] eqn:Ech;
    [|by rewrite bind_lift_raise in Hm].
  rewrite bind_lift_ok in Hm. rewrite bind_lift_ok.
  assert (for_each msgs (λ msg,
            channel ← lift (getitem_str msg (lit "channel"));
            if ne_str channel s then mret () else shown msg)
          = ((for_each msgs (λ msg,
                channel ← lift (getitem_str msg (lit "channel"));
                if ne_str channel s then mret () else shown msg)).1, Ok ()))
    as Hrest.
  { by destruct (for_each msgs _) as [? ?]; simplify_eq/=. }
  apply IH in Hrest.
  destruct (ne_str ch s) eqn:En.
  - rewrite decide_False; [done|].
    unfold channel_is. rewrite Ech. intros [= ->].
    by rewrite (proj2 (ne_str_false _ _)) in En.
  - apply ne_str_false in En as ->. rewrite decide_True by exact Ech.
    destruct (shown m) as [ev r] eqn:Em. simpl in Hm. subst r.
    destruct (Hs m ev Em) as (e & -> & He). by constructor.
Qed.

(** X10: the page of a rollout that renders. When [render_rollout]
    returns, the page is the header, the prompt as a chat message with
    the sort key as body, the expander, and the final messages; the
    expander holds one chat message for each analysis message, and one
    follows it for each final message, in the order of the conversation
    and labelled with the [author.role] of its message. *)
Theorem render_rollout_page rollout idx total evs :
  render_rollout rollout idx total = (evs, Ok ()) →
  ∃ msgs role k ea ef,
    conversation_messages rollout = Ok msgs
    ∧ sort_key rollout = Ok k
    ∧ evs = Markdown (header idx total)
            :: ChatMessage role [Write k false]
            :: Expander (lit "Analysis channel") true ea
            :: ef
    ∧ Forall2 chat_of (filter (channel_is (lit "analysis")) msgs) ea
    ∧ Forall2 chat_of (filter (channel_is (lit "final")) msgs) ef.
Proof.
  unfold render_rollout, emit. rewrite bind_ok.
  destruct (prompt_block rollout) as [evp [[]|e]] eqn:Ep;
    [|rewrite bind_raise; done].
  apply prompt_block_ok in Ep as (role & k & Hk & ->). rewrite bind_ok.
  unfold analysis_block, final_block.
  destruct (conversation_messages rollout) as [msgs|e] eqn:Em; [|done].
  rewrite !bind_lift_ok.
  destruct (for_each msgs analysis_message) as [ea [[]|e]] eqn:Ea; [|done].
  change (within ?c (ea, Ok ())) with ([c ea], @Ok unit ()).
  rewrite bind_ok.
  destruct (for_each msgs final_message) as [ef [[]|e]] eqn:Ef; [|done].
  simpl. intros [= <-].
  exists msgs, role, k, ea, ef. split_and!; try done.
  - eapply for_each_chats; [apply show_analysis_ok|exact Ea].
  - eapply for_each_chats; [apply show_final_ok|exact Ef].
Qed.

(** X11: in a message with a string as [author.role], a [content] that
    is present but is no mapping, as JSON [null] is, raises
    [AttributeError] in both loops, in the analysis loop inside the chat
    message already opened; the default [{}] of [get] stands in only for
    a message without the key, which the analysis loop shows as an empty
    chat message. *)
Theorem content_not_a_mapping d role :
  author_role (VDict d) = Ok (VStr role) →
  (∀ v, dict_lookup (lit "content") d = Some v → (∀ c, v ≠ VDict c) →
        show_analysis (VDict d)
        = ([ChatMessage (VStr role) []], Raise AttributeError)
        ∧ show_final (VDict d) = ([], Raise AttributeError))
  ∧ (dict_lookup (lit "content") d = None →
     show_analysis (VDict d) = ([ChatMessage (VStr role) []], Ok ())).
Proof.
  intros Hrole. unfold show_analysis, show_final.
  rewrite Hrole, !bind_lift_ok, chat_message_str, !bind_lift_ok.
  rewrite !get_dict, !result_bind_ok. split.
  - intros v -> Hv. simpl default.
    assert (∀ k dflt, get v k dflt = Raise AttributeError) as Hget.
    { intros k dflt. destruct v; try done. by destruct (Hv d0). }
    by rewrite bind_lift_ok, !Hget.
  - intros ->. by rewrite bind_lift_ok.
Qed.

(** X17: a role that is not a string. [st.chat_message] raises on it,
    Streamlit's exception for [null] and [AttributeError] otherwise, so
    the message shows nothing, not even an empty chat message. In the
    analysis loop this happens before [content] is read; in the final
    loop [content.parts[0]] is read first, so a failure there comes
    first. *)
Theorem role_not_a_string d role :
  author_role (VDict d) = Ok role →
  ¬ is_str role →
  let e := match role with
           | VNone => StreamlitAPIException
           | _ => AttributeError
           end in
  show_analysis (VDict d) = ([], Raise e)
  ∧ show_final (VDict d)
    = ([], Raise match (content ← get (VDict d) (lit "content") (VDict []);
                        parts ← get content (lit "parts") (VList [VStr []]);
                        getitem_int parts 0) with
                 | Ok _ => e
                 | Raise e' => e'
                 end).
Proof.
  intros Hrole Hstr e.
  assert (chat_message role = Raise e) as Hc.
  { subst e. destruct role; try done. destruct Hstr. by eexists. }
  unfold show_analysis, show_final. rewrite Hrole, bind_lift_ok, Hc.
  split; [done|].
  match goal with
  | |- context [lift (?a ≫= ?f)] => destruct (a ≫= f) as [part|e']
  end; [|done].
  by rewrite !bind_lift_ok, Hc.
Qed.

(** ** The session driver *)

Lemma list_getitem_position (l : list pyval) v :
  1 ≤ v ≤ Z.of_nat (length l) →
  ∃ x, l !! Z.to_nat (v - 1) = Some x ∧ list_getitem l (v - 1) = Ok x.
Proof.
  intros Hv. unfold list_getitem.
  destruct (v - 1 <? 0) eqn:E1; [lia|].
  destruct ((0 <=? v - 1) && (v - 1 <? Z.of_nat (length l))) eqn:E2;
    [|apply andb_false_iff in E2 as [?|?]; lia].
  destruct (l !! Z.to_nat (v - 1)) as [x|] eqn:E3; [by exists x|].
  apply lookup_ge_None in E3. lia.
Qed.

Lemma list_getitem_nil i : list_getitem [] i = Raise IndexError.
Proof.
  unfold list_getitem. simpl length.
  destruct (i <? 0) eqn:E1;
    destruct ((0 <=? _) && (_ <? _)) eqn:E2; try done;
    apply andb_true_iff in E2 as [?%Z.leb_le ?%Z.ltb_lt]; lia.
Qed.

Section more_driver.
Variable json_loads : str → result pyval.
Variable slider : nat → str → Z → Z → Z → str → option Z.

Lemma cache_sound_empty : cache_sound json_loads ∅.
Proof. intros b out. by rewrite lookup_empty. Qed.

Lemma tab_body_cache (i : nat) (cache : gmap bytes (list pyval)) uploaded :
  cache_sound json_loads cache →
  cache_sound json_loads (tab_body json_loads slider i cache uploaded).1
  ∧ (tab_body json_loads slider i cache uploaded).2
    = (tab_body json_loads slider i ∅ uploaded).2.
Proof.
  intros Hc. unfold tab_body.
  destruct (load_rollouts_cached_sound json_loads cache uploaded.2 Hc)
    as [Hr Hc'].
  destruct (load_rollouts_cached_sound json_loads ∅ uploaded.2
              cache_sound_empty) as [Hr0 _].
  destruct (load_rollouts_cached json_loads cache uploaded.2) as [c r].
  destruct (load_rollouts_cached json_loads ∅ uploaded.2) as [c0 r0].
  simpl in *. split; [done|]. by rewrite Hr, Hr0.
Qed.

Lemma tabs_loop_cache (i : nat) (c1 c2 : gmap bytes (list pyval)) files :
  cache_sound json_loads c1 → cache_sound json_loads c2 →
  (tabs_loop json_loads slider i c1 files).2
  = (tabs_loop json_loads slider i c2 files).2.
Proof.
  revert i c1 c2. induction files as [|f files IH]; intros i c1 c2 H1 H2;
    [done|].
  simpl.
  destruct (tab_body_cache i c1 f H1) as [H1' E1].
  destruct (tab_body_cache i c2 f H2) as [H2' E2].
  destruct (tab_body json_loads slider i c1 f) as [c1' [items1 r1]].
  destruct (tab_body json_loads slider i c2 f) as [c2' [items2 r2]].
  simpl in *. rewrite <-E2 in E1. injection E1 as -> ->.
  destruct r2; try done.
  specialize (IH (S i) c1' c2' H1' H2').
  destruct (tabs_loop json_loads slider (S i) c1' files) as [? [? ?]].
  destruct (tabs_loop json_loads slider (S i) c2' files) as [? [? ?]].
  simpl in *. by simplify_eq.
Qed.

(** X12: memoising never changes the page. Started with any cache that
    earlier calls have filled, [main] shows the same page and ends the
    same way as with an empty cache. *)
Theorem main_cache_transparent (cache : gmap bytes (list pyval)) files :
  cache_sound json_loads cache →
  (main json_loads slider cache files).2
  = (main json_loads slider ∅ files).2.
Proof.
  intros Hc. unfold main. destruct files as [|f files]; [done|].
  pose proof (tabs_loop_cache 0 cache ∅ (f :: files) Hc) as H.
  specialize (H cache_sound_empty).
  destruct (tabs_loop json_loads slider 0 cache (f :: files)) as [? [? ?]].
  destruct (tabs_loop json_loads slider 0 ∅ (f :: files)) as [? [? ?]].
  simpl in *. by simplify_eq.
Qed.

Lemma tabs_loop_length (i : nat) (cache : gmap bytes (list pyval)) files :
  length (tabs_loop json_loads slider i cache files).2.1 = length files.
Proof.
  revert i cache. induction files as [|f files IH]; intros i cache; [done|].
  simpl. destruct (tab_body json_loads slider i cache f) as [c [items r]].
  specialize (IH (S i) c).
  destruct (tabs_loop json_loads slider (S i) c files) as [? [? ?]].
  destruct r; simpl in *; rewrite ?length_fmap; lia.
Qed.

(** X13: one tab for each uploaded file. With at least one file, the
    page is the page configuration, the title, the uploader and the
    tabs, one for each file, labelled with the file names in upload
    order, however the run ends. *)
Theorem main_one_tab_per_file (cache : gmap bytes (list pyval)) files :
  files ≠ [] →
  ∃ tabs,
    (main json_loads slider cache files).2.1
    = [PageConfig (lit "Rollouts") (lit "wide");
       Title (lit "Rollouts");
       FileUploader (lit "Upload one JSONL file per model") (lit "jsonl") true;
       Tabs tabs]
    ∧ tabs.*1 = files.*1.
Proof.
  intros Hf. unfold main. destruct files as [|f files]; [done|].
  pose proof (tabs_loop_length 0 cache (f :: files)) as Hlen.
  destruct (tabs_loop json_loads slider 0 cache (f :: files))
    as [c [contents r]].
  simpl in Hlen. eexists. split; [reflexivity|].
  apply fst_zip. rewrite length_fmap. simpl. lia.
Qed.

(** X14: the position on the slider is the rank in the sorted list.
    When the loader returns [rollouts] for a file and the slider gives a
    position [v] from 1 to their number, the tab shows the count, the
    slider, and the rollout at index [v - 1] of the sorted list, rendered
    under the header with [v] and the count. *)
Theorem tab_shows_selected (i : nat) (cache : gmap bytes (list pyval)) name raw
    rollouts v :
  cache_sound json_loads cache →
  load_rollouts json_loads raw = Ok rollouts →
  slider i (lit "Choose rollout") 1 (Z.of_nat (length rollouts)) 1
         (lit "slider_" ++ name) = Some v →
  1 ≤ v ≤ Z.of_nat (length rollouts) →
  ∃ rollout shown,
    rollouts !! Z.to_nat (v - 1) = Some rollout
    ∧ render_rollout rollout (v - 1) (Z.of_nat (length rollouts))
      = (Markdown (lit "---" ++ [0x0A] ++ lit "## Rollout " ++ str_of_int v
                   ++ lit "/" ++ str_of_int (Z.of_nat (length rollouts)))
           :: shown.1, shown.2)
    ∧ (tab_body json_loads slider i cache (name, raw)).2
      = (Placed (Markdown (lit "**" ++ name ++ lit ": Loaded "
                          ++ str_of_int (Z.of_nat (length rollouts))
                          ++ lit " rollouts**"))
           :: Slider (lit "Choose rollout") 1 (Z.of_nat (length rollouts)) 1
                (lit "slider_" ++ name)
           :: Placed (Markdown (lit "---" ++ [0x0A] ++ lit "## Rollout "
                               ++ str_of_int v ++ lit "/"
                               ++ str_of_int (Z.of_nat (length rollouts))))
           :: (Placed <$> shown.1),
         match shown.2 with Ok _ => Returned | Raise e => Failed e end).
Proof.
  intros Hc Hl Hs Hv.
  destruct (list_getitem_position rollouts v Hv) as (rollout & Hlook & Hget).
  exists rollout,
    (prompt_block rollout;; analysis_block rollout;; final_block rollout).
  assert (render_rollout rollout (v - 1) (Z.of_nat (length rollouts))
          = (Markdown (lit "---" ++ [0x0A] ++ lit "## Rollout " ++ str_of_int v
                       ++ lit "/" ++ str_of_int (Z.of_nat (length rollouts)))
               :: (prompt_block rollout;; analysis_block rollout;;
                   final_block rollout).1,
             (prompt_block rollout;; analysis_block rollout;;
              final_block rollout).2)) as Hr.
  { unfold render_rollout, emit, header. rewrite bind_ok.
    by replace (v - 1 + 1) with v by lia. }
  split_and!; [done|done|].
  unfold tab_body.
  destruct (load_rollouts_cached_sound json_loads cache raw Hc) as [Hres _].
  cbv zeta. cbn [fst snd].
  destruct (load_rollouts_cached json_loads cache raw) as [c r].
  cbn [fst snd] in *. subst r. rewrite Hl. cbv beta iota zeta.
  by rewrite Hs, Hget, Hr.
Qed.

(** X15: a file without a valid line shows no rollout. When every line
    of a file is blank or rejected by [json.loads], the empty file
    included, its tab shows the count and then ends: with Streamlit
    refusing the slider, or, whatever position the slider gives, with
    [IndexError]. *)
Theorem tab_of_file_without_records (i : nat) (cache : gmap bytes (list pyval))
    name raw text :
  cache_sound json_loads cache →
  decode_utf8 raw = Ok text →
  Forall (rejected json_loads) (stripped_lines text) →
  load_rollouts json_loads raw = Ok []
  ∧ let loaded :=
      Placed (Markdown (lit "**" ++ name ++ lit ": Loaded " ++ str_of_int 0
                       ++ lit " rollouts**")) in
    (tab_body json_loads slider i cache (name, raw)).2 = ([loaded], Stopped)
    ∨ (tab_body json_loads slider i cache (name, raw)).2
      = ([loaded; Slider (lit "Choose rollout") 1 0 1 (lit "slider_" ++ name)],
         Failed IndexError).
Proof.
  intros Hc Hd Hrej.
  assert (load_rollouts json_loads raw = Ok []) as Hl.
  { rewrite (load_rollouts_sorts _ _ _ Hd).
    - replace (decoded json_loads (stripped_lines text)) with (@nil pyval);
        [done|].
      induction Hrej as [|ln lines Hln _ IH]; [done|].
      rewrite decoded_cons. unfold rejected in Hln. by rewrite Hln.
    - eapply Forall_impl; [exact Hrej|]. intros ln Hln. by right. }
  split; [done|]. unfold tab_body.
  destruct (load_rollouts_cached_sound json_loads cache raw Hc) as [Hres _].
  cbv zeta. cbn [fst snd].
  destruct (load_rollouts_cached json_loads cache raw) as [c r].
  cbn [fst snd] in *. subst r. rewrite Hl. cbv beta iota zeta.
  change (Z.of_nat (length (@nil pyval))) with 0.
  destruct (slider i _ 1 0 1 _) as [v|]; [right|by left].
  by rewrite list_getitem_nil.
Qed.

Lemma tabs_loop_app (i : nat) (cache : gmap bytes (list pyval)) pre rest c1 contents :
  tabs_loop json_loads slider i cache pre = (c1, (contents, Returned)) →
  tabs_loop json_loads slider i cache (pre ++ rest)
  = let '(c2, (more, r)) :=
      tabs_loop json_loads slider (i + length pre) c1 rest in
    (c2, (contents ++ more, r)).
Proof.
  revert i cache contents. induction pre as [|f pre IH];
    intros i cache contents; simpl.
  { intros [= <- <-]. rewrite Nat.add_0_r.
    by destruct (tabs_loop json_loads slider i cache rest) as [? [? ?]]. }
  destruct (tab_body json_loads slider i cache f) as [c [items r]].
  destruct r; try done.
  destruct (tabs_loop json_loads slider (S i) c pre) as [c' [more r']] eqn:E.
  intros [= <- <- ->]. rewrite (IH _ _ _ E).
  replace (S i + length pre)%nat with (i + S (length pre))%nat by lia.
  by destruct (tabs_loop json_loads slider _ c' rest) as [? [? ?]].
Qed.

(** X16: a failing tab ends the run. When the tabs of the files before
    it return and the tab of a file does not, [main] ends the way that
    tab ends; the tabs before it keep their content and the tabs of all
    later files stay empty: their files are not loaded. *)
Theorem main_stops_at_failing_tab (cache : gmap bytes (list pyval))
    pre f post c1 contents c2 items r :
  tabs_loop json_loads slider 0 cache pre = (c1, (contents, Returned)) →
  tab_body json_loads slider (length pre) c1 f = (c2, (items, r)) →
  r ≠ Returned →
  main json_loads slider cache (pre ++ f :: post)
  = (c2,
     ([PageConfig (lit "Rollouts") (lit "wide");
       Title (lit "Rollouts");
       FileUploader (lit "Upload one JSONL file per model") (lit "jsonl") true;
       Tabs (zip ((pre ++ f :: post).*1)
                 (contents ++ items :: ((λ _, []) <$> post)))],
      r)).
Proof.
  intros Hpre Hf Hr. unfold main.
  destruct (pre ++ f :: post) as [|x l] eqn:E; [by destruct pre|].
  rewrite <-E. rewrite (tabs_loop_app _ _ _ _ _ _ Hpre). simpl.
  rewrite Hf. by destruct r.
Qed.

End more_driver.

(** ** The further properties on concrete inputs *)

Lemma load_rollouts_invalid_byte_witness :
  load_rollouts Decoder.loads invalid_file = Raise UnicodeDecodeError.
Proof.
  apply (load_rollouts_invalid_byte Decoder.loads invalid_file xff).
  - unfold invalid_file. apply elem_of_app. right. left.
  - unfold never_utf8. vm_compute. right. right. discriminate.
Defined.

Lemma load_rollouts_other_exception_witness :
  load_rollouts limited_loads deep_file = Raise RecursionError.
Proof.
  apply (load_rollouts_other_exception limited_loads deep_file
           (text_of deep_file)
           (take 2 (stripped_lines (text_of deep_file)))
           (json_text "[[[[1]]]]")
           (drop 3 (stripped_lines (text_of deep_file)))).
  - vm_compute. reflexivity.
  - vm_compute. reflexivity.
  - compute_done.
  - vm_compute. reflexivity.
  - discriminate.
Defined.

Lemma load_rollouts_errors_witness :
  IndexError ≠ JSONDecodeError
  ∧ (IndexError = UnicodeDecodeError
     ∨ (∃ text ln, decode_utf8 short_file = Ok text
                   ∧ ln ∈ stripped_lines text
                   ∧ Decoder.loads ln = Raise IndexError)
     ∨ (∃ text v, decode_utf8 short_file = Ok text
                  ∧ v ∈ decoded Decoder.loads (stripped_lines text)
                  ∧ sort_key v = Raise IndexError ∧ lookup_error IndexError)
     ∨ IndexError = TypeError).
Proof.
  apply (load_rollouts_errors Decoder.loads short_file IndexError).
  vm_compute. reflexivity.
Defined.

Lemma load_rollouts_returns_witness :
  ∃ text, decode_utf8 rollouts_file = Ok text
          ∧ Forall (λ ln, accepted Decoder.loads ln ∨ rejected Decoder.loads ln)
                   (stripped_lines text)
          ∧ sorted_rollouts ≡ₚ decoded Decoder.loads (stripped_lines text)
          ∧ Forall (λ v, ∃ k, sort_key v = Ok k) sorted_rollouts.
Proof.
  apply (load_rollouts_returns Decoder.loads rollouts_file sorted_rollouts).
  vm_compute. reflexivity.
Defined.

Lemma load_rollouts_clean_lines_witness :
  load_rollouts Decoder.loads rollouts_file
  = load_rollouts (λ ln, Decoder.loads (strip ln)) rollouts_file.
Proof.
  apply (load_rollouts_clean_lines Decoder.loads
           (λ ln, Decoder.loads (strip ln)) rollouts_file).
  intros ln (_ & Hs & _). by rewrite Hs.
Defined.

Lemma render_rollout_errors_witness : render_error KeyError.
Proof.
  apply (render_rollout_errors channelless 0 1 KeyError).
  vm_compute. reflexivity.
Defined.

Lemma prompt_shows_sort_key_witness :
  ∃ p ms prompt,
    getitem_str three_channels (lit "prompt") = Ok p
    ∧ getitem_str p (lit "messages") = Ok ms
    ∧ getitem_int ms 1 = Ok prompt
    ∧ prompt_block three_channels
      = match author_role prompt with
        | Ok (VStr role) =>
          ([ChatMessage (VStr role) [Write (VStr (lit "Q")) false]], Ok ())
        | Ok VNone => ([], Raise StreamlitAPIException)
        | Ok _ => ([], Raise AttributeError)
        | Raise e => ([], Raise e)
        end.
Proof.
  apply (prompt_shows_sort_key three_channels (VStr (lit "Q"))).
  vm_compute. reflexivity.
Defined.

Lemma render_rollout_page_witness :
  ∃ msgs role k ea ef,
    conversation_messages three_channels = Ok msgs
    ∧ sort_key three_channels = Ok k
    ∧ (render_rollout three_channels 0 1).1
      = Markdown (header 0 1)
        :: ChatMessage role [Write k false]
        :: Expander (lit "Analysis channel") true ea
        :: ef
    ∧ Forall2 chat_of (filter (channel_is (lit "analysis")) msgs) ea
    ∧ Forall2 chat_of (filter (channel_is (lit "final")) msgs) ef.
Proof.
  apply (render_rollout_page three_channels 0 1
           (render_rollout three_channels 0 1).1).
  vm_compute. reflexivity.
Defined.

Lemma content_not_a_mapping_witness :
  show_analysis (VDict (entries null_content_message))
  = ([ChatMessage assistant []], Raise AttributeError)
  ∧ show_final (VDict (entries null_content_message))
    = ([], Raise AttributeError).
Proof.
  refine (proj1 (content_not_a_mapping (entries null_content_message)
                   (lit "assistant") _) VNone _ _).
  - vm_compute. reflexivity.
  - vm_compute. reflexivity.
  - discriminate.
Defined.

(** A rollout whose prompt has the role [null], and one with the role
    [5]: the page ends after the header. *)
Example prompt_role_not_a_string :
  render_rollout
    (parse "{'prompt':{'messages':['sys',{'author':{'role':null},'content':{'parts':['Q']}}]},'conversation':{'messages':[]}}")
    0 1
  = ([Markdown (header 0 1)], Raise StreamlitAPIException)
  ∧ render_rollout
      (parse "{'prompt':{'messages':['sys',{'author':{'role':5},'content':{'parts':['Q']}}]},'conversation':{'messages':[]}}")
      0 1
    = ([Markdown (header 0 1)], Raise AttributeError).
Proof. split; vm_compute; reflexivity. Qed.

Lemma role_not_a_string_witness :
  show_analysis (VDict (entries null_role_message))
  = ([], Raise StreamlitAPIException)
  ∧ show_final (VDict (entries null_role_message))
    = ([], Raise StreamlitAPIException).
Proof.
  refine (role_not_a_string (entries null_role_message) VNone _ _).
  - vm_compute. reflexivity.
  - intros [s [=]].
Defined.

Lemma cache_after_sound json_loads inputs :
  cache_sound json_loads (cache_after json_loads ∅ inputs).
Proof.
  intros b out [H|(_ & _ & H)]%cache_after_lookup; [|done].
  by rewrite lookup_empty in H.
Qed.

Lemma main_cache_transparent_witness :
  (main Decoder.loads untouched_slider
        (cache_after Decoder.loads ∅ [rollouts_file; short_file])
        three_files).2
  = (main Decoder.loads untouched_slider ∅ three_files).2.
Proof.
  apply (main_cache_transparent Decoder.loads untouched_slider
           (cache_after Decoder.loads ∅ [rollouts_file; short_file])
           three_files).
  apply cache_after_sound.
Defined.

Lemma main_one_tab_per_file_witness :
  ∃ tabs,
    (main Decoder.loads untouched_slider ∅ three_files).2.1
    = [PageConfig (lit "Rollouts") (lit "wide");
       Title (lit "Rollouts");
       FileUploader (lit "Upload one JSONL file per model") (lit "jsonl") true;
       Tabs tabs]
    ∧ tabs.*1 = [lit "a.jsonl"; lit "b.jsonl"; lit "c.jsonl"].
Proof.
  apply (main_one_tab_per_file Decoder.loads untouched_slider ∅ three_files).
  discriminate.
Defined.

Lemma tab_shows_selected_witness :
  ∃ rollout shown,
    sorted_rollouts !! 2%nat = Some rollout
    ∧ render_rollout rollout 2 3
      = (Markdown (lit "---" ++ [0x0A] ++ lit "## Rollout 3/3") :: shown.1,
         shown.2)
    ∧ (tab_body Decoder.loads (slider_at 3) 0 ∅ (lit "a.jsonl", rollouts_file)).2
      = (Placed (Markdown (lit "**a.jsonl: Loaded 3 rollouts**"))
           :: Slider (lit "Choose rollout") 1 3 1 (lit "slider_a.jsonl")
           :: Placed (Markdown (lit "---" ++ [0x0A] ++ lit "## Rollout 3/3"))
           :: (Placed <$> shown.1),
         match shown.2 with Ok _ => Returned | Raise e => Failed e end).
Proof.
  apply (tab_shows_selected Decoder.loads (slider_at 3) 0 ∅ (lit "a.jsonl")
           rollouts_file sorted_rollouts 3).
  - intros b out. by rewrite lookup_empty.
  - vm_compute. reflexivity.
  - vm_compute. reflexivity.
  - vm_compute. split; discriminate.
Defined.

Lemma tab_of_file_without_records_witness :
  load_rollouts Decoder.loads junk_file = Ok []
  ∧ let loaded :=
      Placed (Markdown (lit "**" ++ lit "junk" ++ lit ": Loaded "
                       ++ str_of_int 0 ++ lit " rollouts**")) in
    (tab_body Decoder.loads untouched_slider 0 ∅ (lit "junk", junk_file)).2
    = ([loaded], Stopped)
    ∨ (tab_body Decoder.loads untouched_slider 0 ∅ (lit "junk", junk_file)).2
      = ([loaded; Slider (lit "Choose rollout") 1 0 1
                    (lit "slider_" ++ lit "junk")],
         Failed IndexError).
Proof.
  apply (tab_of_file_without_records Decoder.loads untouched_slider 0 ∅
           (lit "junk") junk_file (text_of junk_file)).
  - intros b out. by rewrite lookup_empty.
  - vm_compute. reflexivity.
  - compute_done.
Defined.

Lemma main_stops_at_failing_tab_witness :
  main Decoder.loads untouched_slider ∅
       ([] ++ (lit "b.jsonl", short_file) :: [(lit "c.jsonl", rollouts_file)])
  = (∅,
     ([PageConfig (lit "Rollouts") (lit "wide");
       Title (lit "Rollouts");
       FileUploader (lit "Upload one JSONL file per model") (lit "jsonl") true;
       Tabs (zip (([] ++ (lit "b.jsonl", short_file)
                      :: [(lit "c.jsonl", rollouts_file)]).*1)
                 ([] ++ [] :: ((λ _, []) <$> [(lit "c.jsonl", rollouts_file)])))],
      Failed IndexError)).
Proof.
  apply (main_stops_at_failing_tab Decoder.loads untouched_slider ∅
           [] (lit "b.jsonl", short_file) [(lit "c.jsonl", rollouts_file)]
           ∅ [] ∅ [] (Failed IndexError)).
  - reflexivity.
  - vm_compute. reflexivity.
  - discriminate.
Defined.
